(** * Complex numbers and their expression evaluator

  A shallow embedding of the TypeScript class [Complex] (constructor,
  arithmetic, rendering, and the recursive-descent evaluator [Complex.eval])
  together with the parts of the ECMAScript runtime it calls: strings as
  sequences of UTF-16 code units, numbers as IEEE 754 binary64 values,
  [Number(string)], [Number.prototype.toFixed] and number-to-string
  conversion.  The transcendental functions of [Math] are taken as
  parameters. *)

From Stdlib Require Import String Ascii DecimalString.
From Stdlib Require Import ZArith NArith List Bool Lia Floats.
Import ListNotations.
Open Scope list_scope.

Set Warnings "-inexact-float".

(** ** ECMAScript strings *)

Module JSString.

(** A string value is a finite sequence of 16-bit code units. *)
Definition code_unit := N.
Definition jstring := list code_unit.

(** ASCII literals. *)
Definition str (s : string) : jstring :=
  map N_of_ascii (list_ascii_of_string s).

(** U+03C0, the Greek small letter pi. *)
Definition PI_GLYPH : code_unit := 960%N.

Fixpoint eqb (a b : jstring) : bool :=
  match a, b with
  | [], [] => true
  | x :: a', y :: b' => N.eqb x y && eqb a' b'
  | _, _ => false
  end.

Definition is_digit (c : code_unit) : bool :=
  (N.leb 48 c && N.leb c 57)%bool.

(** WhiteSpace and LineTerminator code units, as [String.prototype.trim]
    and [StringToNumber] strip them. *)
Definition is_white (c : code_unit) : bool :=
  existsb (N.eqb c)
    [9; 10; 11; 12; 13; 32; 160; 5760; 8192; 8193; 8194; 8195; 8196; 8197;
     8198; 8199; 8200; 8201; 8202; 8232; 8233; 8239; 8287; 12288; 65279]%N.

Fixpoint trim_start (s : jstring) : jstring :=
  match s with
  | c :: t => if is_white c then trim_start t else s
  | [] => []
  end.

Definition trim (s : jstring) : jstring :=
  rev (trim_start (rev (trim_start s))).

(** [toLowerCase] on the ASCII letters and on the Greek capital pi, the
    letters that become characters the evaluator recognises; the other
    code units are kept, the rest of the Unicode case table not being
    modelled. *)
Definition lower (c : code_unit) : code_unit :=
  if (N.leb 65 c && N.leb c 90)%bool then (c + 32)%N
  else if N.eqb c 928 then PI_GLYPH
  else c.

Definition toLowerCase (s : jstring) : jstring := map lower s.

(** [s.split] with the empty separator: one string per code unit. *)
Definition split_chars (s : jstring) : list jstring :=
  map (fun c => [c]) s.

(** [parts.join(sep)]. *)
Fixpoint join (sep : jstring) (parts : list jstring) : jstring :=
  match parts with
  | [] => []
  | [p] => p
  | p :: rest => p ++ sep ++ join sep rest
  end.

(** [s.split(sep)] for a separator of one code unit. *)
Fixpoint split_on (sep : code_unit) (s : jstring) : list jstring :=
  match s with
  | [] => [[]]
  | c :: t =>
      if N.eqb c sep then [] :: split_on sep t
      else match split_on sep t with
           | h :: r => (c :: h) :: r
           | [] => [[c]]
           end
  end.

Definition nonempty (s : jstring) : bool :=
  match s with [] => false | _ => true end.

Fixpoint starts_with (p s : jstring) : bool :=
  match p, s with
  | [], _ => true
  | x :: p', y :: s' => N.eqb x y && starts_with p' s'
  | _ :: _, [] => false
  end.

Definition includes (p s : jstring) : bool :=
  existsb (fun n => starts_with p (skipn n s)) (seq 0 (S (length s))).

(** The longest prefix whose code units satisfy [f], and the rest. *)
Fixpoint span (f : code_unit -> bool) (s : jstring) : jstring * jstring :=
  match s with
  | c :: t => if f c then let (a, b) := span f t in (c :: a, b) else ([], s)
  | [] => ([], [])
  end.

(** *** Global replacement

    A [matcher] says whether the pattern matches at the start of a
    string and, if so, gives the replacement text and the length of the
    match (at least one for every pattern used here).
    [replace_all m 0 s] is [s.replace(/pattern/g, replacement)]: the
    string is scanned left to right, a match is replaced and scanning
    resumes after it; [skip] counts the code units of the current match
    still to be dropped. *)
Definition matcher := jstring -> option (jstring * nat).

Fixpoint replace_all (m : matcher) (skip : nat) (s : jstring) : jstring :=
  match s with
  | [] => []
  | c :: t =>
      match skip with
      | S k => replace_all m k t
      | O =>
          match m s with
          | Some (repl, len) => repl ++ replace_all m (Nat.pred len) t
          | None => c :: replace_all m 0 t
          end
      end
  end.

(** A literal pattern. *)
Definition m_lit (pat repl : jstring) : matcher :=
  fun s => if starts_with pat s then Some (repl, length pat) else None.

(** Alternation, first alternative first. *)
Definition m_or (a b : matcher) : matcher :=
  fun s => match a s with Some r => Some r | None => b s end.

(** [/ +/] replaced by one space. *)
Definition m_spaces : matcher :=
  fun s =>
    match span (N.eqb 32) s with
    | ([], _) => None
    | (run, _) => Some ([32%N], length run)
    end.

(** [/(\d+)_(\d+)/] replaced by ["$1$2"].  The first group is greedy; a
    shorter first group would be followed by a digit, not by the
    underscore, so the pattern matches exactly when the whole digit run
    is followed by an underscore and a digit. *)
Definition m_digits_digits : matcher :=
  fun s =>
    match span is_digit s with
    | ((_ :: _) as d1, u :: r) =>
        if N.eqb u 95 then
          match span is_digit r with
          | ((_ :: _) as d2, _) =>
              Some (d1 ++ d2, length d1 + 1 + length d2)
          | _ => None
          end
        else None
    | _ => None
    end.

(** [/(\d+)_[\,\.]_(\d+)/] replaced by ["$1.$2"]. *)
Definition m_decimal : matcher :=
  fun s =>
    match span is_digit s with
    | ((_ :: _) as d1, u1 :: p :: u2 :: r) =>
        if (N.eqb u1 95 && (N.eqb p 44 || N.eqb p 46) && N.eqb u2 95)%bool
        then
          match span is_digit r with
          | ((_ :: _) as d2, _) =>
              Some (d1 ++ [46%N] ++ d2, length d1 + 3 + length d2)
          | _ => None
          end
        else None
    | _ => None
    end.

End JSString.

Import JSString.

(** ** ECMAScript numbers *)

Module JSNumber.

(** A Number is an IEEE 754 binary64 value with a single NaN. *)
Definition number := float.

Bind Scope float_scope with number.

Definition isNaN (x : number) : bool := is_nan x.

(** [ToBoolean] of a number: every number but [+0], [-0] and [NaN]. *)
Definition truthy (x : number) : bool := negb (is_nan x || is_zero x).

(** [x || y] on numbers. *)
Definition or_else (x y : number) : number := if truthy x then x else y.

(** The number nearest to the rational [num / den] (both non-negative,
    [den] positive), ties to even, with the sign [neg]. *)
Definition round_ratio (neg : bool) (num den : Z) : number :=
  match num, den with
  | Zpos n, Zpos d =>
      SF2Prim (SFdiv prec emax (S754_finite neg n 0) (S754_finite false d 0))
  | _, _ => if neg then neg_zero else zero
  end.

(** The number nearest to [m * 10 ^ e]. *)
Definition of_decimal (neg : bool) (m e : Z) : number :=
  if (0 <=? e)%Z then round_ratio neg (m * 10 ^ e) 1
  else round_ratio neg m (10 ^ (- e)).

(** The exact value of a finite number's magnitude as a fraction. *)
Definition ratio (m : positive) (e : Z) : Z * Z :=
  if (0 <=? e)%Z then (Zpos m * 2 ^ e, 1)%Z else (Zpos m, 2 ^ (- e))%Z.

Definition magnitude (x : number) : Z * Z :=
  match Prim2SF x with
  | S754_finite _ m e => ratio m e
  | _ => (0, 1)%Z
  end.

(** Decimal digits of a non-negative integer. *)
Definition dec (z : Z) : jstring :=
  str (NilZero.string_of_uint (N.to_uint (Z.to_N z))).

Definition ndigits (z : Z) : Z := Z.of_nat (length (dec z)).

Definition zeros (n : Z) : jstring := repeat 48%N (Z.to_nat n).

(** *** [StringToNumber] *)

Definition digit_val (base : Z) (c : code_unit) : option Z :=
  let c := Z.of_N c in
  let v :=
    if ((48 <=? c) && (c <=? 57))%Z then Some (c - 48)%Z
    else if ((97 <=? c) && (c <=? 102))%Z then Some (c - 87)%Z
    else if ((65 <=? c) && (c <=? 70))%Z then Some (c - 55)%Z
    else None in
  match v with
  | Some d => if (d <? base)%Z then Some d else None
  | None => None
  end.

Fixpoint parse_int (base acc : Z) (s : jstring) : option Z :=
  match s with
  | [] => Some acc
  | c :: t =>
      match digit_val base c with
      | Some d => parse_int base (acc * base + d)%Z t
      | None => None
      end
  end.

(** A non-empty run of digits in the given base, and nothing else. *)
Definition parse_digits (base : Z) (s : jstring) : option Z :=
  match s with
  | [] => None
  | _ => parse_int base 0 s
  end.

(** ExponentPart after its [e]: an optional sign and decimal digits. *)
Definition parse_exponent (s : jstring) : option Z :=
  match s with
  | c :: t =>
      if N.eqb c 43 then parse_digits 10 t
      else if N.eqb c 45 then option_map Z.opp (parse_digits 10 t)
      else parse_digits 10 s
  | [] => None
  end.

(** StrUnsignedDecimalLiteral: [Infinity], or digits with an optional
    fraction and an optional exponent, at least one digit before the
    exponent. *)
Definition StrUnsignedDecimalLiteral (neg : bool) (s : jstring) : number :=
  if eqb s (str "Infinity") then (if neg then neg_infinity else infinity)
  else
    let (ip, r1) := span is_digit s in
    let '(fp, r2) :=
      match r1 with
      | c :: r => if N.eqb c 46 then span is_digit r else ([], r1)
      | [] => ([], r1)
      end in
    if (nonempty ip || nonempty fp)%bool then
      let ex :=
        match r2 with
        | [] => Some 0%Z
        | c :: r3 =>
            if (N.eqb c 101 || N.eqb c 69)%bool then parse_exponent r3
            else None
        end in
      match ex, parse_int 10 0 (ip ++ fp) with
      | Some e, Some m => of_decimal neg m (e - Z.of_nat (length fp))
      | _, _ => nan
      end
    else nan.

Definition NonDecimalIntegerLiteral (base : Z) (s : jstring) : number :=
  match parse_digits base s with
  | Some v => round_ratio false v 1
  | None => nan
  end.

(** [Number(s)] for a string [s]. *)
Definition StringToNumber (s : jstring) : number :=
  match trim s with
  | [] => zero
  | c :: t =>
      let prefixed :=
        match t with
        | p :: r =>
            if N.eqb c 48 then
              if (N.eqb p 120 || N.eqb p 88)%bool then Some (16%Z, r)
              else if (N.eqb p 111 || N.eqb p 79)%bool then Some (8%Z, r)
              else if (N.eqb p 98 || N.eqb p 66)%bool then Some (2%Z, r)
              else None
            else None
        | [] => None
        end in
      match prefixed with
      | Some (base, r) => NonDecimalIntegerLiteral base r
      | None =>
          if N.eqb c 43 then StrUnsignedDecimalLiteral false t
          else if N.eqb c 45 then StrUnsignedDecimalLiteral true t
          else StrUnsignedDecimalLiteral false (c :: t)
      end
  end.

(** *** [Number::toString] *)

(** The integer [n] with [10^(n-1) <= num/den < 10^n]. *)
Definition decimal_exponent (num den : Z) : Z :=
  if (den <=? num)%Z then ndigits (num / den)
  else
    let j := (ndigits den - ndigits num)%Z in
    if (den <=? num * 10 ^ j)%Z then (1 - j)%Z else (- j)%Z.

(** [num/den] divided by [10^d], as a fraction. *)
Definition scale (num den d : Z) : Z * Z :=
  if (0 <=? d)%Z then (num, den * 10 ^ d)%Z else (num * 10 ^ (- d), den)%Z.

(** The shortest digit string: integers [n], [k], [s] with
    [10^(k-1) <= s < 10^k], the number value of [s * 10^(n-k)] equal to
    [x], and [k] as small as possible; among several [s] the one closest
    to [x], the even one on a tie.  Only the integers next to the scaled
    value can qualify. *)
Fixpoint shortest (fuel : nat) (x : number) (num den n k : Z) : Z * Z * Z :=
  let (A, B) := scale num den (n - k) in
  let lo := (A / B)%Z in
  let r := (A mod B)%Z in
  let hi := (lo + 1)%Z in
  let ok s := (of_decimal false s (n - k) =? x)%float in
  let norm s := if (s =? 10 ^ k)%Z then (n + 1, k, 10 ^ (k - 1))%Z else (n, k, s) in
  match ok lo, ok hi with
  | true, true =>
      if (2 * r <? B)%Z then norm lo
      else if (B <? 2 * r)%Z then norm hi
      else if Z.even lo then norm lo else norm hi
  | true, false => norm lo
  | false, true => norm hi
  | false, false =>
      match fuel with
      | S fuel' => shortest fuel' x num den n (k + 1)
      | O => norm lo
      end
  end.

Definition exponent_suffix (e : Z) : jstring :=
  str "e" ++ (if (e <? 0)%Z then str "-" else str "+") ++ dec (Z.abs e).

(** The digits [ds] (there are [k]) with the decimal point after the
    first [n], as [Number::toString] lays them out. *)
Definition layout (n k : Z) (ds : jstring) : jstring :=
  if ((-5 <=? n) && (n <=? 21))%Z then
    if (k <=? n)%Z then ds ++ zeros (n - k)
    else if (0 <? n)%Z then
      firstn (Z.to_nat n) ds ++ str "." ++ skipn (Z.to_nat n) ds
    else str "0." ++ zeros (- n) ++ ds
  else
    match ds with
    | [d] => [d] ++ exponent_suffix (n - 1)
    | d :: rest => [d] ++ str "." ++ rest ++ exponent_suffix (n - 1)
    | [] => []
    end.

Definition NumberToString (x : number) : jstring :=
  match Prim2SF x with
  | S754_nan => str "NaN"
  | S754_zero _ => str "0"
  | S754_infinity s => if s then str "-Infinity" else str "Infinity"
  | S754_finite sgn m e =>
      let (num, den) := ratio m e in
      let '(n, k, s) := shortest 17 (abs x) num den (decimal_exponent num den) 1 in
      (if sgn then str "-" else []) ++ layout n k (dec s)
  end.

(** *** [ToIntegerOrInfinity], [toFixed], [toExponential], [toPrecision] *)

(** [ToIntegerOrInfinity] of an optional number argument; [None] stands for
    either infinity (out of every range used below). *)
Definition ToIntegerOrInfinity (arg : option number) : option Z :=
  match arg with
  | None => Some 0%Z
  | Some x =>
      match Prim2SF x with
      | S754_nan | S754_zero _ => Some 0%Z
      | S754_infinity _ => None
      | S754_finite s m e =>
          let (num, den) := ratio m e in
          Some (if s then - (num / den) else num / den)%Z
      end
  end.

(** [num/den] rounded to an integer, a half rounding up. *)
Definition round_half_up (num den : Z) : Z := ((2 * num + den) / (2 * den))%Z.

(** [n] and [e] with [10^(p-1) <= n < 10^p] and [n * 10^(e-p+1)] as close to
    [num/den] as possible, the larger on a tie. *)
Definition round_sig (num den p : Z) : Z * Z :=
  let e := (decimal_exponent num den - 1)%Z in
  let (A, B) := scale num den (e - p + 1) in
  let n := round_half_up A B in
  if (n =? 10 ^ p)%Z then (10 ^ (p - 1), e + 1)%Z else (n, e).

Definition with_point (a : nat) (m : jstring) : jstring :=
  firstn a m ++ str "." ++ skipn a m.

(** [x.toFixed(f)] for an integer [f] between 0 and 100. *)
Definition toFixed_digits (x : number) (f : Z) : jstring :=
  if negb (is_finite x) then NumberToString x
  else if (1e21 <=? abs x)%float then NumberToString x
  else
    let (num, den) := magnitude x in
    let n := round_half_up (num * 10 ^ f) den in
    let m := dec n in
    let m :=
      if (f =? 0)%Z then m
      else
        let m := zeros (f + 1 - ndigits n) ++ m in
        with_point (length m - Z.to_nat f) m in
    (if (x <? 0)%float then str "-" else []) ++ m.

(** [x.toFixed(fractionDigits)]; [None] is the RangeError. *)
Definition toFixed (x : number) (fractionDigits : option number)
  : option jstring :=
  match ToIntegerOrInfinity fractionDigits with
  | None => None
  | Some f =>
      if ((f <? 0) || (100 <? f))%Z then None
      else Some (toFixed_digits x f)
  end.

(** [x.toExponential(fractionDigits)]; [None] is the RangeError. *)
Definition toExponential (x : number) (fractionDigits : option number)
  : option jstring :=
  match ToIntegerOrInfinity fractionDigits with
  | None => if is_finite x then None else Some (NumberToString x)
  | Some f =>
      if negb (is_finite x) then Some (NumberToString x)
      else if ((f <? 0) || (100 <? f))%Z then None
      else
        let sign := if (x <? 0)%float then str "-" else [] in
        let '(m, e) :=
          match Prim2SF x with
          | S754_finite _ mx ex =>
              let (num, den) := ratio mx ex in
              match fractionDigits with
              | Some _ => let (n, e) := round_sig num den (f + 1) in (dec n, e)
              | None =>
                  let '(n, _, s) :=
                    shortest 17 (abs x) num den (decimal_exponent num den) 1 in
                  (dec s, (n - 1)%Z)
              end
          | _ => (zeros (f + 1), 0%Z)
          end in
        let m := match m with [d] => m | _ => with_point 1 m end in
        Some (sign ++ m ++ exponent_suffix e)
  end.

(** [x.toPrecision(precision)]; [None] is the RangeError. *)
Definition toPrecision (x : number) (precision : option number)
  : option jstring :=
  match precision with
  | None => Some (NumberToString x)
  | Some _ =>
      if negb (is_finite x) then Some (NumberToString x)
      else
        match ToIntegerOrInfinity precision with
        | None => None
        | Some p =>
            if ((p <? 1) || (100 <? p))%Z then None
            else
              let sign := if (x <? 0)%float then str "-" else [] in
              let '(m, e) :=
                match Prim2SF x with
                | S754_finite _ mx ex =>
                    let (num, den) := ratio mx ex in
                    let (n, e) := round_sig num den p in (dec n, e)
                | _ => (zeros p, 0%Z)
                end in
              if ((e <? -6) || (p <=? e))%Z then
                let m := if (p =? 1)%Z then m else with_point 1 m in
                Some (sign ++ m ++ exponent_suffix e)
              else if (e =? p - 1)%Z then Some (sign ++ m)
              else if (0 <=? e)%Z then
                Some (sign ++ with_point (Z.to_nat (e + 1)) m)
              else Some (sign ++ str "0." ++ zeros (- (e + 1)) ++ m)
        end
  end.

End JSNumber.

Import JSNumber.

(** ** Outcomes of a call *)

(** The errors the class throws, by the place that throws them (all are
    plain [Error] objects carrying a message), and the runtime's
    [RangeError]. *)
Inductive error :=
| InvalidNumber (msg : jstring)
| DivisionError (msg : jstring)
| InvalidExpression (msg : jstring)
| ParseError (msg : jstring)
| RangeError.

(** A call returns, throws, or (in the evaluator, whose recursion is
    bounded by a fuel) runs out of fuel. *)
Inductive result (A : Type) :=
| Ok (a : A)
| Throw (e : error)
| OutOfFuel.

Arguments Ok {A} a.
Arguments Throw {A} e.
Arguments OutOfFuel {A}.

Definition bind {A B : Type} (m : result A) (k : A -> result B) : result B :=
  match m with
  | Ok a => k a
  | Throw e => Throw e
  | OutOfFuel => OutOfFuel
  end.

Notation "x <- m ;; k" := (bind m (fun x => k))
  (at level 61, m at next level, right associativity).
Notation "' p <- m ;; k" := (bind m (fun x => let 'p := x in k))
  (at level 61, p pattern, m at next level, right associativity).

Definition or_range_error (o : option jstring) : result jstring :=
  match o with
  | Some s => Ok s
  | None => Throw RangeError
  end.

(** The functions of [Math] whose results the language leaves to the
    implementation ([x ** y] is [Math.pow]). *)
Record MathLib := {
  Math_pow : number -> number -> number;
  Math_cos : number -> number;
  Math_sin : number -> number;
  Math_log : number -> number;
  Math_atan2 : number -> number -> number
}.

Definition Math_E : number := 2.718281828459045%float.
Definition Math_PI : number := 3.141592653589793%float.

(** [/\.?0+$/]: an optional point and a non-empty run of zeros that ends
    the string, replaced by nothing. *)
Definition all_zeros (s : jstring) : bool :=
  (nonempty s && forallb (N.eqb 48) s)%bool.

Definition m_trailing_zeros : matcher :=
  fun s =>
    match s with
    | c :: r =>
        if (N.eqb c 46 && all_zeros r)%bool then Some ([], length s)
        else if all_zeros s then Some ([], length s)
        else None
    | [] => None
    end.

Definition niceround (real : number) : jstring :=
  let fixed := toFixed_digits real 12 in
  if includes (str ".") fixed then replace_all m_trailing_zeros 0 fixed
  else fixed.

(** ** The class [Complex] *)

Module Complex.

(** An instance: the fields [real] and [imag]. *)
Record t := mk { real : number; imag : number }.

(** What the constructor and the static methods accept: a [Complex], a
    [Real] (number, bigint or string), or a missing argument. *)
Inductive value :=
| VUndefined
| VNumber (x : number)
| VBigint (z : Z)
| VString (s : jstring)
| VComplex (c : t).

(** [ToBoolean]. *)
Definition truthy_value (v : value) : bool :=
  match v with
  | VUndefined => false
  | VNumber x => truthy x
  | VBigint z => negb (z =? 0)%Z
  | VString s => nonempty s
  | VComplex _ => true
  end.

Definition toString (this : t) : jstring :=
  let real := niceround this.(Complex.real) in
  let imag := niceround this.(Complex.imag) ++ str "j" in
  if (negb (eqb imag (str "0j")) && negb (eqb imag (str "-0j")))%bool then
    if negb (eqb real (str "0")) then
      if (0 <=? this.(Complex.imag))%float then real ++ str "+" ++ imag
      else real ++ imag
    else imag
  else real.

(** [String(v)], as template literals and [String()] compute it. *)
Definition String_ (v : value) : jstring :=
  match v with
  | VUndefined => str "undefined"
  | VNumber x => NumberToString x
  | VBigint z => (if (z <? 0)%Z then str "-" else []) ++ dec (Z.abs z)
  | VString s => s
  | VComplex c => toString c
  end.

(** [Number(z)] for a bigint. *)
Definition Number_of_bigint (z : Z) : number :=
  round_ratio (z <? 0)%Z (Z.abs z) 1.

Definition toFixed (this : t) (fractionDigits : option number)
  : result jstring :=
  real <- or_range_error (JSNumber.toFixed this.(Complex.real) fractionDigits) ;;
  imag <- (if truthy this.(Complex.imag)
           then s <- or_range_error
                       (JSNumber.toFixed this.(Complex.imag) fractionDigits) ;;
                Ok (s ++ str "j")
           else Ok []) ;;
  Ok (if nonempty imag then
        if nonempty real then
          if (0 <=? this.(Complex.imag))%float then real ++ str "+" ++ imag
          else real ++ imag
        else imag
      else real).

Definition toPrecision (this : t) (precision : option number)
  : result jstring :=
  if truthy this.(Complex.imag) then
    if truthy this.(Complex.real) then
      r <- or_range_error (JSNumber.toPrecision this.(Complex.real) precision) ;;
      i <- or_range_error (JSNumber.toPrecision this.(Complex.imag) precision) ;;
      Ok (r ++ (if (this.(Complex.imag) <? 0)%float then [] else str "+")
            ++ i ++ str "j")
    else
      i <- or_range_error (JSNumber.toPrecision this.(Complex.imag) precision) ;;
      Ok (i ++ str "j")
  else or_range_error (JSNumber.toPrecision this.(Complex.real) precision).

Section WithMath.

Variable M : MathLib.

(** The getters [abs] and [angle]; [valueOf] is an alias of [abs]. *)
Definition abs (this : t) : number :=
  Math_pow M
    (this.(Complex.real) * this.(Complex.real)
     + this.(Complex.imag) * this.(Complex.imag))%float
    0.5%float.

Definition angle (this : t) : number :=
  let abs := or_else (abs this) 1%float in
  Math_atan2 M (this.(Complex.imag) / abs)%float
    (this.(Complex.real) / abs)%float.

Definition valueOf (this : t) : number := abs this.

Definition toExponential (this : t) (fractionDigits : option number)
  : result jstring :=
  if truthy this.(Complex.imag) then
    let fd_truthy :=
      match fractionDigits with Some f => truthy f | None => false end in
    let render (n : number) : result jstring :=
      if (n =? 1)%float then Ok []
      else if fd_truthy then
        s <- or_range_error (JSNumber.toFixed n fractionDigits) ;;
        Ok (NumberToString (StringToNumber s))
      else Ok (NumberToString n) in
    a <- render (abs this) ;;
    b <- render (angle this / Math_PI)%float ;;
    Ok (a ++ str "e^" ++ b ++ str "j" ++ [PI_GLYPH])
  else or_range_error (JSNumber.toExponential this.(Complex.real) fractionDigits).

(** *** Construction and arithmetic

    The constructor evaluates a string argument with [Complex.eval], which
    is defined below from the arithmetic; [ev] stands for it here. *)
Section WithEval.

Variable ev : value -> result t.

(** Lines 23-34 of the constructor: the fields after the first argument
    has been read. *)
Definition assign_real (real : value) : result t :=
  match real with
  | VNumber x => Ok (mk x 0)
  | VBigint z => Ok (mk (Number_of_bigint z) 0)
  | VString _ => ev real
  | VComplex c => Ok (mk c.(Complex.real) c.(Complex.imag))
  | VUndefined => Ok (mk 0 0)
  end.

(** Lines 47-51: the final check. *)
Definition check_nan (real imag : value) (this : t) : result t :=
  if (isNaN this.(Complex.real) || isNaN this.(Complex.imag))%bool then
    Throw (InvalidNumber
             (str "Cannot construct complex number from ["
                ++ String_ real ++ str ", " ++ String_ imag ++ str "]"))
  else Ok this.

(** [new Complex(real)], the second argument missing. *)
Definition new1 (real : value) : result t :=
  this <- assign_real real ;;
  check_nan real VUndefined this.

(** [new Complex(real, imag)]. *)
Definition new (real imag : value) : result t :=
  this <- assign_real real ;;
  this <- (if truthy_value imag then
             imag_part <- new1 imag ;;
             if (truthy imag_part.(Complex.imag)
                 && negb (truthy imag_part.(Complex.real)))%bool
             then Ok (mk this.(Complex.real)
                         (this.(Complex.imag) + imag_part.(Complex.imag)))
             else Ok (mk (this.(Complex.real) - imag_part.(Complex.imag))
                         (this.(Complex.imag) + imag_part.(Complex.real)))
           else Ok this) ;;
  check_nan real imag this.

(** [n instanceof Complex ? n : new Complex(n)]. *)
Definition to_complex (n : value) : result t :=
  match n with
  | VComplex c => Ok c
  | _ => new n VUndefined
  end.

Fixpoint add_loop (newThis : t) (numbers : list value) : result t :=
  match numbers with
  | [] => Ok newThis
  | n :: rest =>
      c <- to_complex n ;;
      add_loop (mk (newThis.(Complex.real) + c.(Complex.real))
                   (newThis.(Complex.imag) + c.(Complex.imag))) rest
  end.

Definition add (numbers : list value) : result t :=
  newThis <- new VUndefined VUndefined ;;
  add_loop newThis numbers.

Fixpoint sub_loop (newThis : t) (Rvalues : list value) : result t :=
  match Rvalues with
  | [] => Ok newThis
  | n :: rest =>
      c <- to_complex n ;;
      sub_loop (mk (newThis.(Complex.real) - c.(Complex.real))
                   (newThis.(Complex.imag) - c.(Complex.imag))) rest
  end.

Definition sub (Lvalue : value) (Rvalues : list value) : result t :=
  newThis <- new Lvalue VUndefined ;;
  sub_loop newThis Rvalues.

Fixpoint mul_loop (real imag : number) (numbers : list value)
  : result (number * number) :=
  match numbers with
  | [] => Ok (real, imag)
  | n :: rest =>
      c <- to_complex n ;;
      let rr := (real * c.(Complex.real))%float in
      let ri := (real * c.(Complex.imag))%float in
      let ir := (imag * c.(Complex.real))%float in
      let ii := (imag * c.(Complex.imag))%float in
      mul_loop (rr - ii) (ri + ir) rest
  end.

Definition mul (numbers : list value) : result t :=
  '(real, imag) <- mul_loop 1 0 numbers ;;
  new (VNumber real) (VNumber imag).

(** One pass of the loop of [div]: the quotient of [a + bj] by [cn]. *)
Definition div_step (a b : number) (cn : t) : result (number * number) :=
  let c := cn.(Complex.real) in
  let d := cn.(Complex.imag) in
  let den := (c * c + d * d)%float in
  let real := ((a * c + b * d) / den)%float in
  let imag := ((b * c - a * d) / den)%float in
  if (isNaN real || isNaN imag)%bool then
    nom <- new (VNumber a) (VNumber b) ;;
    den <- new (VNumber c) (VNumber d) ;;
    e <- toExponential nom None ;;
    Throw (DivisionError
             (str "Cannot evaluate " ++ e ++ str " / " ++ toString den))
  else Ok (real, imag).

Fixpoint div_loop (real imag : number) (Rvalues : list value)
  : result (number * number) :=
  match Rvalues with
  | [] => Ok (real, imag)
  | n :: rest =>
      cn <- to_complex n ;;
      '(real, imag) <- div_step real imag cn ;;
      div_loop real imag rest
  end.

Definition div (Lvalue : value) (Rvalues : list value) : result t :=
  Lvalue <- to_complex Lvalue ;;
  '(real, imag) <-
     div_loop Lvalue.(Complex.real) Lvalue.(Complex.imag) Rvalues ;;
  new (VNumber real) (VNumber imag).

(** The static [abs] and [angle]. *)
Definition abs_of (n : value) : result number :=
  c <- to_complex n ;; Ok (abs c).

Definition angle_of (n : value) : result number :=
  c <- to_complex n ;; Ok (angle c).

Definition exp (terms : list value) : result t :=
  c <- mul terms ;;
  u <- new (VNumber (Math_cos M c.(Complex.imag)))
           (VNumber (Math_sin M c.(Complex.imag))) ;;
  mul [VComplex u; VNumber (Math_pow M Math_E c.(Complex.real))].

Definition log (terms : list value) : result t :=
  c <- mul terms ;;
  new (VNumber (Math_log M (abs c))) (VNumber (angle c)).

Definition pow (root exponent : value) : result t :=
  l <- log [root] ;;
  p <- mul [exponent; VComplex l] ;;
  exp [VComplex p].

End WithEval.

(** *** The evaluator *)

(** The [do ... while] loop that merges digits: a pass is repeated as long
    as the last one shortened the string, so at most as many times as the
    string is long. *)
Fixpoint merge_digits (fuel : nat) (s : jstring) : jstring :=
  let s' := replace_all m_digits_digits 0 s in
  match fuel with
  | S fuel' =>
      if (length s' <? length s)%nat then merge_digits fuel' s' else s'
  | O => s'
  end.

(** The first statement of [eval]. *)
Definition separate (s : jstring) : jstring :=
  replace_all m_spaces 0
    (toLowerCase (join (str "_") (split_chars (trim s)))).

(** The chain of replacements on the merged string. *)
Definition replacements (s : jstring) : jstring :=
  let s := replace_all m_decimal 0 s in
  let s := replace_all (m_lit (str "*_*") (str "^")) 0 s in
  let s := replace_all (m_lit [PI_GLYPH] (NumberToString Math_PI)) 0 s in
  let s := replace_all (m_lit (str "p_i") (NumberToString Math_PI)) 0 s in
  let s := replace_all (m_or (m_lit (str "i") (str "j"))
                             (m_lit (str "j") (str "j"))) 0 s in
  let s := replace_all (m_lit (str "-_+") (str "-")) 0 s in
  let s := replace_all (m_lit (str "+_-") (str "-")) 0 s in
  let s := replace_all (m_lit (str "+_+") (str "+")) 0 s in
  let s := replace_all (m_lit (str "-_-") (str "+")) 0 s in
  let s := replace_all (m_or (m_lit (str "e_x_p") (str "exp"))
                             (m_lit (str "e_^") (str "exp"))) 0 s in
  let s := replace_all (m_or (m_lit (str "l_o_g") (str "ln"))
                             (m_lit (str "l_n") (str "ln"))) 0 s in
  s.

(** The token sequence [parts] that [eval] hands to the parser. *)
Definition tokenize (s : jstring) : list jstring :=
  let s := separate s in
  let s := merge_digits (length s) s in
  filter nonempty (split_on 95%N (replacements s)).

(** [parts[0]], [undefined] when there is none. *)
Definition first_part (parts : list jstring) : option jstring :=
  match parts with
  | p :: _ => Some p
  | [] => None
  end.

Definition eval__part_is_end_of_expression (part : option jstring) : bool :=
  match part with
  | Some p =>
      (eqb p (str "+") || eqb p (str "-") || eqb p (str "*")
       || eqb p (str "/") || eqb p (str "^") || eqb p (str " ")
       || eqb p (str ")"))%bool
  | None => true
  end.

(** [while (parts[0] === " ") parts.shift()]. *)
Fixpoint skip_spaces (parts : list jstring) : list jstring :=
  match parts with
  | p :: rest => if eqb p (str " ") then skip_spaces rest else parts
  | [] => []
  end.

(** [while (parts[0] === " " || parts[0] === "+") parts.shift()]. *)
Fixpoint skip_spaces_plus (parts : list jstring) : list jstring :=
  match parts with
  | p :: rest =>
      if (eqb p (str " ") || eqb p (str "+"))%bool
      then skip_spaces_plus rest else parts
  | [] => []
  end.

(** [!parts.length || parts[0] === ")"]. *)
Definition at_closing (parts : list jstring) : bool :=
  match parts with
  | [] => true
  | p :: _ => eqb p (str ")")
  end.

(** [if (parts[0] === "-") parts.unshift("0")]. *)
Definition unshift_zero (parts : list jstring) : list jstring :=
  match parts with
  | p :: _ => if eqb p (str "-") then str "0" :: parts else parts
  | [] => parts
  end.

(** [part.match(/^\d+$/g)]. *)
Definition all_digits (part : jstring) : bool :=
  (nonempty part && forallb is_digit part)%bool.

(** The numeric literal of [eval__read_expression]: [first_n], scaled by
    a power of ten when the parts [e], a sign and digits follow; with the
    parts left. *)
Definition read_literal (first_n : number) (parts : list jstring)
  : number * list jstring :=
  match parts with
  | p0 :: p1 :: p2 :: rest =>
      if (eqb p0 (str "e") && (eqb p1 (str "+") || eqb p1 (str "-"))
          && all_digits p2)%bool
      then ((first_n * Math_pow M 10 (StringToNumber (p1 ++ p2)))%float, rest)
      else (first_n, parts)
  | _ => (first_n, parts)
  end.

Definition tokens := list jstring.

(** The five levels of the grammar and [eval].  Each level takes the parts
    still to be read and returns its value with the parts left; every call
    of one of these functions spends one unit of [fuel]. *)
Fixpoint eval__read_expression (fuel : nat) (parts : tokens) {struct fuel}
  : result (t * tokens) :=
  match fuel with
  | O => OutOfFuel
  | S fuel =>
      let ev := eval fuel in
      let parts := skip_spaces parts in
      match parts with
      | [] => c <- new ev (VNumber 1) VUndefined ;; Ok (c, parts)
      | first :: parts =>
          let first_n := StringToNumber first in
          if isNaN first_n then
            if eqb first (str "exp") then
              '(a, parts) <- eval__read_expression fuel parts ;;
              c <- exp ev [VComplex a] ;;
              Ok (c, parts)
            else if eqb first (str "ln") then
              '(a, parts) <- eval__read_expression fuel parts ;;
              c <- log ev [VComplex a] ;;
              Ok (c, parts)
            else if eqb first (str "e") then
              if eval__part_is_end_of_expression (first_part parts) then
                c <- new ev (VNumber Math_E) VUndefined ;; Ok (c, parts)
              else
                e <- new ev (VNumber Math_E) VUndefined ;;
                '(r, parts) <- eval__read_expression fuel parts ;;
                c <- mul ev [VComplex e; VComplex r] ;;
                Ok (c, parts)
            else if eqb first (str "j") then
              if eval__part_is_end_of_expression (first_part parts) then
                c <- new ev (VNumber 0) (VNumber 1) ;; Ok (c, parts)
              else
                j <- new ev (VNumber 0) (VNumber 1) ;;
                '(r, parts) <- eval__read_expression fuel parts ;;
                c <- mul ev [VComplex j; VComplex r] ;;
                Ok (c, parts)
            else if eqb first (str "(") then
              '(c, parts) <- eval__read_bracket_contents fuel parts ;;
              if eval__part_is_end_of_expression (first_part parts) then
                Ok (c, parts)
              else
                '(r, parts) <- eval__read_expression fuel parts ;;
                c <- mul ev [VComplex c; VComplex r] ;;
                Ok (c, parts)
            else if eqb first (str "-") then
              '(r, parts) <- eval__read_expression fuel parts ;;
              c <- mul ev [VComplex r; VNumber (-1)] ;;
              if eval__part_is_end_of_expression (first_part parts) then
                Ok (c, parts)
              else
                '(r, parts) <- eval__read_expression fuel parts ;;
                c <- mul ev [VComplex c; VComplex r] ;;
                Ok (c, parts)
            else
              Throw (InvalidExpression
                       (str "Invalid expression: "
                          ++ join (str " ") (first :: parts)))
          else
            let (x, parts) := read_literal first_n parts in
            num <- new ev (VNumber x) VUndefined ;;
            if eval__part_is_end_of_expression (first_part parts) then
              Ok (num, parts)
            else
              '(r, parts) <- eval__read_expression fuel parts ;;
              c <- mul ev [VComplex num; VComplex r] ;;
              Ok (c, parts)
      end
  end

with eval__read_exponentiation (fuel : nat) (parts : tokens) {struct fuel}
  : result (t * tokens) :=
  match fuel with
  | O => OutOfFuel
  | S fuel =>
      let ev := eval fuel in
      '(left_, parts) <- eval__read_expression fuel parts ;;
      let parts := skip_spaces parts in
      match parts with
      | p :: rest =>
          if eqb p (str "^") then
            '(r, parts) <- eval__read_exponentiation fuel rest ;;
            c <- pow ev (VComplex left_) (VComplex r) ;;
            Ok (c, parts)
          else Ok (left_, parts)
      | [] => Ok (left_, parts)
      end
  end

with eval__read_multiplication (fuel : nat) (parts : tokens) {struct fuel}
  : result (t * tokens) :=
  match fuel with
  | O => OutOfFuel
  | S fuel =>
      let ev := eval fuel in
      '(left_, parts) <- eval__read_exponentiation fuel parts ;;
      let parts := skip_spaces parts in
      match parts with
      | p :: rest =>
          if eqb p (str "*") then
            '(r, parts) <- eval__read_multiplication fuel rest ;;
            c <- mul ev [VComplex left_; VComplex r] ;;
            Ok (c, parts)
          else if eqb p (str "/") then
            '(d, parts) <- eval__read_exponentiation fuel rest ;;
            q <- div ev (VComplex left_) [VComplex d] ;;
            '(m, parts) <- eval__read_multiplication fuel parts ;;
            c <- mul ev [VComplex q; VComplex m] ;;
            Ok (c, parts)
          else if negb (eval__part_is_end_of_expression (Some p)) then
            '(r, parts) <- eval__read_expression fuel parts ;;
            L <- mul ev [VComplex left_; VComplex r] ;;
            eval__read_multiplication fuel
              ([str "("; niceround L.(real); str "+"; niceround L.(imag);
                str ")"] ++ parts)
          else Ok (left_, parts)
      | [] => Ok (left_, parts)
      end
  end

with eval__read_addition (fuel : nat) (parts : tokens) {struct fuel}
  : result (t * tokens) :=
  match fuel with
  | O => OutOfFuel
  | S fuel =>
      let ev := eval fuel in
      let parts := skip_spaces parts in
      let after_left (_ : unit) :=
        '(left_, parts) <- eval__read_multiplication fuel parts ;;
        let parts := skip_spaces parts in
        match parts with
        | p :: rest =>
            if eqb p (str "+") then
              '(r, parts) <- eval__read_addition fuel rest ;;
              c <- add ev [VComplex left_; VComplex r] ;;
              Ok (c, parts)
            else if eqb p (str "-") then
              '(right_, parts) <- eval__read_multiplication fuel rest ;;
              match parts with
              | q :: _ =>
                  if (eqb q (str "+") || eqb q (str "-"))%bool then
                    d <- sub ev (VComplex left_) [VComplex right_] ;;
                    eval__read_addition fuel (toString d :: parts)
                  else
                    d <- sub ev (VComplex left_) [VComplex right_] ;;
                    Ok (d, parts)
              | [] =>
                  d <- sub ev (VComplex left_) [VComplex right_] ;;
                  Ok (d, parts)
              end
            else Ok (left_, parts)
        | [] => Ok (left_, parts)
        end in
      match parts with
      | p :: rest =>
          if eqb p (str "+") then eval__read_addition fuel rest
          else if eqb p (str "-") then
            '(r, parts) <- eval__read_addition fuel rest ;;
            c <- sub ev (VNumber 0) [VComplex r] ;;
            Ok (c, parts)
          else after_left tt
      | [] => after_left tt
      end
  end

with eval__read_bracket_contents (fuel : nat) (parts : tokens) {struct fuel}
  : result (t * tokens) :=
  match fuel with
  | O => OutOfFuel
  | S fuel =>
      let ev := eval fuel in
      let parts := skip_spaces_plus parts in
      if at_closing parts then
        c <- new ev (VNumber 1) VUndefined ;; Ok (c, parts)
      else
        let parts := unshift_zero parts in
        '(contents, parts) <- eval__read_addition fuel parts ;;
        if at_closing parts then Ok (contents, tl parts)
        else
          Throw (ParseError
                   (str "Invalid expression: "
                      ++ join (str " ") (toString contents :: parts)))
  end

with eval (fuel : nat) (num : value) {struct fuel} : result t :=
  match fuel with
  | O => OutOfFuel
  | S fuel =>
      '(c, _) <- eval__read_bracket_contents fuel (tokenize (String_ num)) ;;
      Ok c
  end.

End WithMath.

End Complex.

Import Complex.

(** ** The command line *)

Module Cli.

Definition newline : jstring := [10%N].

(** The handler of [data] events on the standard input: the chunk read,
    as a string, is evaluated and the default rendering of the value is
    written as a line on the standard output; an error thrown by the
    evaluator leaves the handler. *)
Definition on_data (M : MathLib) (fuel : nat) (chunk : jstring)
  : result jstring :=
  c <- eval M fuel (VString chunk) ;;
  Ok (toString c ++ newline).

End Cli.

(** ** Notions used to state the properties *)

(** [Complex.eval num] ends in [r]: every fuel from some bound on gives
    [r] (a returned value or a thrown error). *)
Definition eval_gives (M : MathLib) (num : value) (r : result t) : Prop :=
  exists n, forall fuel, (n <= fuel)%nat -> eval M fuel num = r.

Definition is_string (v : value) : bool :=
  match v with
  | VString _ => true
  | _ => false
  end.

Definition has_NaN (c : t) : bool := (isNaN c.(real) || isNaN c.(imag))%bool.

Definition both_finite (c : t) : bool :=
  (is_finite c.(real) && is_finite c.(imag))%bool.

(** The second argument as a number that was read: a falsy one leaves
    the field at [+0]. *)
Definition or_zero (x : number) : number := if truthy x then x else 0%float.

(** A digit run, or two digit runs around a point. *)
Definition is_decimal_literal (p : jstring) : bool :=
  let (ip, r) := span is_digit p in
  match r with
  | [] => nonempty ip
  | c :: fp => (nonempty ip && N.eqb c 46 && all_digits fp)%bool
  end.

(** The tokens the grammar recognises: digit runs and decimal literals,
    the operators, the parentheses, the space marker, the imaginary unit
    and the words [exp], [ln] and [e]. *)
Definition recognized (p : jstring) : bool :=
  (is_decimal_literal p
   || existsb (eqb p)
        [str "+"; str "-"; str "*"; str "/"; str "^"; str "("; str ")";
         str " "; str "j"; str "exp"; str "ln"; str "e"])%bool.

(** What the atom level dispatches on besides numbers. *)
Definition is_atom_word (p : jstring) : bool :=
  existsb (eqb p)
    [str "exp"; str "ln"; str "e"; str "j"; str "("; str "-"].

(** The rule for a second constructor argument [p] in the words of the
    specification: a purely imaginary [p] has its imaginary part added;
    otherwise the real part of [p] is subtracted from [real] and its
    imaginary part is added to [imag]. *)
Definition second_argument_rule_as_specified (this p : t) : t :=
  if (truthy p.(imag) && negb (truthy p.(real)))%bool
  then mk this.(real) (this.(imag) + p.(imag))
  else mk (this.(real) - p.(real)) (this.(imag) + p.(imag)).

(** The rule of the constructor: otherwise the imaginary part of [p] is
    subtracted from [real] and its real part is added to [imag]. *)
Definition second_argument_rule (this p : t) : t :=
  if (truthy p.(imag) && negb (truthy p.(real)))%bool
  then mk this.(real) (this.(imag) + p.(imag))
  else mk (this.(real) - p.(imag)) (this.(imag) + p.(real)).

(** A platform on which [10 ** 3] is [1000]; its other functions are not
    called where it is used. *)
Definition sample_math : MathLib :=
  {| Math_pow := fun _ _ => 1000%float;
     Math_cos := fun x => x;
     Math_sin := fun x => x;
     Math_log := fun x => x;
     Math_atan2 := fun x _ => x |}.

(** Where the levels of the grammar stop: the exponentiation level never
    in front of a space or [^], the multiplication level only in front of
    [+], [-], [)] or the end, the addition level only in front of [)] or
    the end. *)
Definition stops_exponentiation (rest : tokens) : bool :=
  match rest with
  | [] => true
  | p :: _ => (negb (eqb p (str " ")) && negb (eqb p (str "^")))%bool
  end.

Definition stops_multiplication (rest : tokens) : bool :=
  match rest with
  | [] => true
  | p :: _ => (eqb p (str "+") || eqb p (str "-") || eqb p (str ")"))%bool
  end.

(** One step of [div] on numbers: [(a + bj) / (c + dj)]. *)
Definition quotient (a b c d : number) : number * number :=
  let den := (c * c + d * d)%float in
  (((a * c + b * d) / den)%float, ((b * c - a * d) / den)%float).

(** The steps of [div] from [a + bj] through the divisors [rs]: the final
    quotient, or the numerator and the divisor of the first step with a
    NaN in its result. *)
Fixpoint div_steps (a b : number) (rs : list t)
  : (number * number * t) + (number * number) :=
  match rs with
  | [] => inr (a, b)
  | cn :: rest =>
      let (re, im) := quotient a b cn.(real) cn.(imag) in
      if (isNaN re || isNaN im)%bool then inl (a, b, cn)
      else div_steps re im rest
  end.

(** Two platforms whose functions agree on every argument. *)
Definition same_math (M M' : MathLib) : Prop :=
  (forall x y, Math_pow M x y = Math_pow M' x y)
  /\ (forall x, Math_cos M x = Math_cos M' x)
  /\ (forall x, Math_sin M x = Math_sin M' x)
  /\ (forall x, Math_log M x = Math_log M' x)
  /\ (forall x y, Math_atan2 M x y = Math_atan2 M' x y).

(** The platform [M] with the value of [10 ** 3] written out. *)
Definition with_pow_10_3 (M : MathLib) : MathLib :=
  {| Math_pow := fun x y =>
       if (PrimFloat.Leibniz.eqb x 10 && PrimFloat.Leibniz.eqb y 3)%bool
       then 1000%float else Math_pow M x y;
     Math_cos := Math_cos M;
     Math_sin := Math_sin M;
     Math_log := Math_log M;
     Math_atan2 := Math_atan2 M |}.

(** The five levels and [eval] give the same results on two platforms. *)
Definition levels_agree (M M' : MathLib) (fuel : nat) : Prop :=
  (forall parts, eval__read_expression M fuel parts
                 = eval__read_expression M' fuel parts)
  /\ (forall parts, eval__read_exponentiation M fuel parts
                    = eval__read_exponentiation M' fuel parts)
  /\ (forall parts, eval__read_multiplication M fuel parts
                    = eval__read_multiplication M' fuel parts)
  /\ (forall parts, eval__read_addition M fuel parts
                    = eval__read_addition M' fuel parts)
  /\ (forall parts, eval__read_bracket_contents M fuel parts
                    = eval__read_bracket_contents M' fuel parts)
  /\ (forall num, eval M fuel num = eval M' fuel num).

(** Every level stops where the comment above says, whenever it returns. *)
Definition levels_stop (M : MathLib) (fuel : nat) : Prop :=
  (forall parts c rest,
      eval__read_exponentiation M fuel parts = Ok (c, rest) ->
      stops_exponentiation rest = true)
  /\ (forall parts c rest,
        eval__read_multiplication M fuel parts = Ok (c, rest) ->
        stops_multiplication rest = true)
  /\ (forall parts c rest,
        eval__read_addition M fuel parts = Ok (c, rest) ->
        at_closing rest = true).

(** A call that does not end in the error of bracket-contents. *)
Definition never_ParseError {A : Type} (r : result A) : Prop :=
  forall msg, r <> Throw (ParseError msg).

Definition levels_never_ParseError (M : MathLib) (fuel : nat) : Prop :=
  (forall parts, never_ParseError (eval__read_expression M fuel parts))
  /\ (forall parts, never_ParseError (eval__read_exponentiation M fuel parts))
  /\ (forall parts, never_ParseError (eval__read_multiplication M fuel parts))
  /\ (forall parts, never_ParseError (eval__read_addition M fuel parts))
  /\ (forall parts,
        never_ParseError (eval__read_bracket_contents M fuel parts))
  /\ (forall num, never_ParseError (eval M fuel num)).

(** An operator that the atom level rejects in front of it. *)
Definition is_operator_after_quotient (p : jstring) : bool :=
  existsb (eqb p) [str "*"; str "/"; str "+"; str ")"].

(** The loop of [mul] on numbers: the product of [real + imag j] and the
    operands [cs], from the left. *)
Fixpoint product (real imag : number) (cs : list t) : number * number :=
  match cs with
  | [] => (real, imag)
  | c :: rest =>
      product (real * c.(Complex.real) - imag * c.(Complex.imag))%float
              (real * c.(Complex.imag) + imag * c.(Complex.real))%float rest
  end.

(** The error of the constructor for two numbers. *)
Definition cannot_construct (a b : number) : error :=
  InvalidNumber
    (str "Cannot construct complex number from ["
       ++ NumberToString a ++ str ", " ++ NumberToString b ++ str "]").

Definition all_white (s : jstring) : bool := forallb is_white s.

(** Strings of code units below 128, on which [lower] is the whole of
    [toLowerCase]. *)
Definition is_ascii (s : jstring) : bool := forallb (fun c => N.ltb c 128) s.

Definition digits_only (s : jstring) : bool := forallb is_digit s.

(** A string that does not go on with a digit. *)
Definition no_digit_ahead (s : jstring) : bool :=
  match s with
  | [] => true
  | c :: _ => negb (is_digit c)
  end.

Definition starts_with_digit (s : jstring) : bool :=
  match s with
  | [] => false
  | c :: _ => is_digit c
  end.

(** Digits, the comma and the point. *)
Definition literal_char (c : code_unit) : bool :=
  (is_digit c || N.eqb c 44 || N.eqb c 46)%bool.

Definition literal_chars (s : jstring) : bool := forallb literal_char s.

(** The two digit runs of a decimal literal around [p], a point or a
    comma, as the first statement of [eval] separates them. *)
Definition separated (A : list jstring) (p : code_unit) (B : list jstring)
  : jstring :=
  join (str "_") A ++ 95%N :: p :: 95%N :: join (str "_") B.

(** One pass of the digit-merging loop on digit runs joined by [_]: the
    runs are merged two by two from the left. *)
Fixpoint pair_up (runs : list jstring) : list jstring :=
  match runs with
  | r1 :: r2 :: rest => (r1 ++ r2) :: pair_up rest
  | _ => runs
  end.

(** The errors that [eval] can end in: those of the constructor, of [div]
    and of the atom level. *)
Definition is_eval_error (e : error) : bool :=
  match e with
  | InvalidNumber _ | DivisionError _ | InvalidExpression _ => true
  | ParseError _ | RangeError => false
  end.

Definition fails_as_eval {A : Type} (r : result A) : Prop :=
  forall e, r = Throw e -> is_eval_error e = true.

Definition levels_fail_as_eval (M : MathLib) (fuel : nat) : Prop :=
  (forall parts, fails_as_eval (eval__read_expression M fuel parts))
  /\ (forall parts, fails_as_eval (eval__read_exponentiation M fuel parts))
  /\ (forall parts, fails_as_eval (eval__read_multiplication M fuel parts))
  /\ (forall parts, fails_as_eval (eval__read_addition M fuel parts))
  /\ (forall parts, fails_as_eval (eval__read_bracket_contents M fuel parts))
  /\ (forall num, fails_as_eval (eval M fuel num)).

(** A part that can start a term of a sum: no space and no sign. *)
Definition starts_a_term (p : jstring) : bool :=
  (negb (eqb p (str " ")) && negb (eqb p (str "+"))
   && negb (eqb p (str "-")))%bool.

(** A part that the levels cannot read: no number, none of the words of
    the atom level, and no sign. *)
Definition is_rejected_part (p : jstring) : bool :=
  (isNaN (StringToNumber p) && negb (is_atom_word p)
   && negb (eqb p (str "+")))%bool.

(** A platform with the values of the functions of [Math] at the
    arguments that [exp()], [log()] and [log(0)] pass to them. *)
Definition edge_math : MathLib :=
  {| Math_pow := fun x _ => x;
     Math_cos := fun _ => 1%float;
     Math_sin := fun _ => 0%float;
     Math_log := fun x => if (x =? 0)%float then neg_infinity else 0%float;
     Math_atan2 := fun _ _ => 0%float |}.

(** What the definitions of [exp] and [log] need of the platform at the
    edges. *)
Definition edge_values (M : MathLib) : Prop :=
  Math_cos M 0 = 1%float /\ Math_sin M 0 = 0%float
  /\ Math_pow M Math_E 1 = Math_E
  /\ Math_pow M 1 0.5 = 1%float /\ Math_log M 1 = 0%float
  /\ Math_atan2 M 0 1 = 0%float
  /\ Math_pow M 0 0.5 = 0%float /\ Math_log M 0 = neg_infinity
  /\ Math_atan2 M 0 0 = 0%float.

(** ** Facts about binary64 arithmetic *)

Lemma SFeqb_refl x :
  SFeqb x x = match x with S754_nan => false | _ => true end.
Proof.
  destruct x as [s|s| |s m e]; try (destruct s; reflexivity); try reflexivity.
  unfold SFeqb, SFcompare.
  destruct s; rewrite Z.compare_refl, Pos.compare_cont_refl; reflexivity.
Qed.

Lemma is_nan_spec x :
  is_nan x = match Prim2SF x with S754_nan => true | _ => false end.
Proof.
  unfold is_nan. rewrite FloatAxioms.eqb_spec, SFeqb_refl.
  destruct (Prim2SF x); reflexivity.
Qed.

Lemma is_zero_spec x :
  is_zero x = match Prim2SF x with S754_zero _ => true | _ => false end.
Proof.
  unfold is_zero. rewrite FloatAxioms.eqb_spec.
  change (Prim2SF zero) with (S754_zero false).
  destruct (Prim2SF x) as [s|s| |s m e]; try destruct s; reflexivity.
Qed.

Lemma sub_zero_r a : (a - 0 = a)%float.
Proof.
  apply Prim2SF_inj. rewrite sub_spec.
  change (Prim2SF 0) with (S754_zero false).
  destruct (Prim2SF a) as [s|s| |s m e]; try destruct s; reflexivity.
Qed.

Lemma add_zero_l b : truthy b = true -> (0 + b = b)%float.
Proof.
  unfold truthy. rewrite is_nan_spec, is_zero_spec. intros H.
  apply Prim2SF_inj. rewrite add_spec.
  change (Prim2SF 0) with (S754_zero false).
  destruct (Prim2SF b) as [s|s| |s m e]; try destruct s;
    try reflexivity; discriminate.
Qed.

Lemma quotient_by_zero_is_NaN a b c d :
  is_zero c = true -> is_zero d = true ->
  is_nan ((a * c + b * d) / (c * c + d * d))%float = true.
Proof.
  rewrite !is_zero_spec, is_nan_spec.
  rewrite div_spec, !add_spec, !mul_spec.
  destruct (Prim2SF c) as [sc|?| |? ? ?]; try discriminate.
  destruct (Prim2SF d) as [sd|?| |? ? ?]; try discriminate.
  intros _ _.
  destruct (Prim2SF a) as [sa|sa| |sa ma ea], (Prim2SF b) as [sb|sb| |sb mb eb];
    destruct sc, sd; try destruct sa; try destruct sb; reflexivity.
Qed.

(** ** The constructor *)

Lemma check_nan_cases real imag this :
  (exists msg, check_nan real imag this = Throw (InvalidNumber msg)
               /\ has_NaN this = true)
  \/ (check_nan real imag this = Ok this /\ has_NaN this = false).
Proof.
  unfold check_nan, has_NaN.
  destruct (isNaN (Complex.real this) || isNaN (Complex.imag this))%bool;
    [left; eexists; split; reflexivity | right; split; reflexivity].
Qed.

Lemma assign_real_not_string ev real :
  is_string real = false ->
  exists this, assign_real ev real = Ok this.
Proof.
  destruct real; simpl; intros H; try discriminate; eexists; reflexivity.
Qed.

Lemma new1_not_string ev real :
  is_string real = false ->
  (exists c, new1 ev real = Ok c)
  \/ (exists msg, new1 ev real = Throw (InvalidNumber msg)).
Proof.
  intros H. unfold new1.
  destruct (assign_real_not_string ev real H) as [this ->]. simpl.
  destruct (check_nan_cases real VUndefined this) as [[msg [-> _]] | [-> _]];
    eauto.
Qed.

(** C1, as amended.  Whatever the arguments, the constructor either
    returns a value neither of whose components is NaN (a component may
    be infinite), or throws InvalidNumber; only a string argument can
    make it end otherwise, with the outcome of evaluating that string. *)
Theorem constructor_result_has_no_NaN (ev : value -> result t)
    (real imag : value) :
  match new ev real imag with
  | Ok c => isNaN c.(Complex.real) = false /\ isNaN c.(Complex.imag) = false
  | Throw (InvalidNumber _) => True
  | _ => is_string real = true \/ is_string imag = true
  end.
Proof.
  unfold new.
  destruct (assign_real ev real) as [this| e |] eqn:Ea; simpl.
  - assert (Hend : forall this',
      match check_nan real imag this' with
      | Ok c => isNaN (Complex.real c) = false /\ isNaN (Complex.imag c) = false
      | Throw (InvalidNumber _) => True
      | _ => is_string real = true \/ is_string imag = true
      end).
    { intros this'.
      destruct (check_nan_cases real imag this') as [[msg [-> _]] | [-> H]];
        [exact I |].
      apply orb_false_iff in H. exact H. }
    destruct (truthy_value imag); [| apply Hend].
    destruct (is_string imag) eqn:Es.
    + destruct (new1 ev imag) as [p| e |]; simpl.
      * destruct (truthy (Complex.imag p) && negb (truthy (Complex.real p)))%bool;
          apply Hend.
      * destruct e; auto.
      * auto.
    + destruct (new1_not_string ev imag Es) as [[p ->] | [msg ->]]; simpl.
      * destruct (truthy (Complex.imag p) && negb (truthy (Complex.real p)))%bool;
          apply Hend.
      * exact I.
  - destruct real; simpl in Ea; try discriminate.
    destruct e; auto.
  - destruct real; simpl in Ea; try discriminate. auto.
Qed.

(** C1 fails as stated: [new Complex(Infinity)] returns a value whose
    real component is infinite. *)
Lemma constructor_accepts_infinity :
  exists real imag c,
    (forall ev, new ev real imag = Ok c) /\ both_finite c = false.
Proof.
  exists (VNumber infinity), VUndefined, (mk infinity 0).
  split; [intros ev; reflexivity | reflexivity].
Qed.

(** C10.  [Complex.add()] is [0 + 0j] and [Complex.mul()] is [1 + 0j]. *)
Theorem add_mul_of_no_operands (ev : value -> result t) :
  add ev [] = Ok (mk 0 0) /\ mul ev [] = Ok (mk 1 0).
Proof.
  split; reflexivity.
Qed.

Lemma new_numbers ev a b :
  isNaN a = false -> isNaN b = false ->
  new ev (VNumber a) (VNumber b) = Ok (mk a (or_zero b)).
Proof.
  intros Ha Hb. unfold new, or_zero. simpl.
  destruct (truthy b) eqn:Tb.
  - unfold new1, check_nan. simpl. rewrite Hb. simpl.
    rewrite sub_zero_r, (add_zero_l b Tb), Ha, Hb. reflexivity.
  - unfold check_nan. simpl. rewrite Ha. reflexivity.
Qed.

Lemma new1_complex ev p :
  has_NaN p = false -> new1 ev (VComplex p) = Ok p.
Proof.
  intros H. unfold new1, check_nan. simpl.
  unfold has_NaN in H. rewrite H. destruct p; reflexivity.
Qed.

(** C5, as amended.  A second argument [p] that is not purely imaginary
    has its imaginary part subtracted from [real] and its real part added
    to [imag] (the spec has the two parts the other way round); a purely
    imaginary one has its imaginary part added to [imag].  The result is
    returned unless one of its components is NaN.  So
    [new Complex(a, b)] for two numbers is [a + bj], with [+0] for a
    falsy [b]. *)
Theorem constructor_second_argument (ev : value -> result t) (c p : t)
    (a b : number) :
  has_NaN p = false -> isNaN a = false -> isNaN b = false ->
  match new ev (VComplex c) (VComplex p) with
  | Ok r => r = second_argument_rule c p
  | Throw (InvalidNumber _) => has_NaN (second_argument_rule c p) = true
  | _ => False
  end
  /\ new ev (VNumber a) (VNumber b) = Ok (mk a (or_zero b)).
Proof.
  intros Hp Ha Hb. split; [| apply new_numbers; assumption].
  unfold new. simpl. rewrite (new1_complex ev p Hp). simpl.
  unfold second_argument_rule.
  destruct (truthy (Complex.imag p) && negb (truthy (Complex.real p)))%bool;
    simpl;
    match goal with
    | |- context [check_nan ?x ?y ?r] =>
        destruct (check_nan_cases x y r) as [[msg [-> H]] | [-> _]];
          [exact H | reflexivity]
    end.
Qed.

(** A purely imaginary second argument and two numbers. *)
Lemma constructor_second_argument_witness :
  has_NaN (mk 0 3) = false /\ isNaN 1 = false /\ isNaN 2 = false
  /\ (match new (fun _ => OutOfFuel) (VComplex (mk 1 2)) (VComplex (mk 0 3)) with
      | Ok r => r = second_argument_rule (mk 1 2) (mk 0 3)
      | Throw (InvalidNumber _) =>
          has_NaN (second_argument_rule (mk 1 2) (mk 0 3)) = true
      | _ => False
      end
      /\ new (fun _ => OutOfFuel) (VNumber 1) (VNumber 2) = Ok (mk 1 (or_zero 2))).
Proof.
  split; [reflexivity |]. split; [reflexivity |]. split; [reflexivity |].
  apply (constructor_second_argument (fun _ => OutOfFuel) (mk 1 2) (mk 0 3) 1 2);
    reflexivity.
Defined.

(** C5 fails as stated: [new Complex(1, 2)] is [1 + 2j], while the rule
    in the words of the specification (the real part of the second
    argument subtracted from [real], its imaginary part added to [imag])
    gives [-1 + 0j]. *)
Lemma second_argument_rule_as_specified_differs :
  exists a b c,
    (forall ev, new ev (VNumber a) (VNumber b) = Ok c)
    /\ c <> second_argument_rule_as_specified (mk a 0) (mk b 0).
Proof.
  exists 1%float, 2%float, (mk 1 2). split; [intros ev; reflexivity |].
  intros H. apply (f_equal (fun r => (Complex.imag r =? 2)%float)) in H.
  vm_compute in H. discriminate.
Qed.

(** ** Rendering *)

(** C8 at [new Complex(0, 1)]: [toFixed] renders the real part although it
    is exactly zero (the string it tests is never empty), where
    [toPrecision] and [toString] render ["1j"]. *)
Theorem toFixed_keeps_zero_real_part :
  toFixed (mk 0 1) None = Ok (str "0+1j")
  /\ toPrecision (mk 0 1) None = Ok (str "1j")
  /\ toString (mk 0 1) = str "1j".
Proof.
  repeat split; vm_compute; reflexivity.
Qed.

(** ** The normalizer *)

Lemma eqb_eq (a b : jstring) : eqb a b = true <-> a = b.
Proof.
  revert b; induction a as [|x a IH]; intros [|y b]; simpl;
    try (split; [discriminate | discriminate]); try tauto.
  rewrite andb_true_iff, N.eqb_eq, IH.
  split; [intros [-> ->]; reflexivity | intros H; inversion H; auto].
Qed.

Lemma split_on_no_separator sep s :
  Forall (fun p => ~ In sep p) (split_on sep s).
Proof.
  induction s as [|c s IH]; simpl.
  - constructor; [intros [] | constructor].
  - destruct (N.eqb_spec c sep) as [-> | Hne].
    + constructor; [intros [] | exact IH].
    + destruct (split_on sep s) as [|h r]; inversion IH; subst.
      * constructor; [| constructor]. intros [E | []]. congruence.
      * constructor; [| assumption].
        intros [E | Hin]; [congruence | contradiction].
Qed.

Lemma filter_nonempty_Forall (P : jstring -> Prop) l :
  Forall P l -> Forall (fun p => p <> [] /\ P p) (filter nonempty l).
Proof.
  induction 1 as [|p l Hp Hl IH]; simpl; [constructor |].
  destruct p as [|c p]; simpl; [exact IH |].
  constructor; [split; [discriminate | exact Hp] | exact IH].
Qed.

Lemma is_atom_word_false first :
  is_atom_word first = false ->
  eqb first (str "exp") = false /\ eqb first (str "ln") = false
  /\ eqb first (str "e") = false /\ eqb first (str "j") = false
  /\ eqb first (str "(") = false /\ eqb first (str "-") = false.
Proof.
  unfold is_atom_word. cbn [existsb]. rewrite !orb_false_iff. tauto.
Qed.

(** The loop that merges digits needs no more fuel than the length of
    the string: a pass is repeated only after it has shortened the
    string. *)
Lemma merge_digits_fuel fuel : forall s extra,
  (length s <= fuel)%nat ->
  merge_digits (fuel + extra) s = merge_digits fuel s.
Proof.
  induction fuel as [|fuel IH]; intros s extra Hlen.
  - destruct s; [| simpl in Hlen; lia].
    destruct extra; reflexivity.
  - cbn [Nat.add merge_digits].
    destruct (length (replace_all m_digits_digits 0 s) <? length s)%nat eqn:E;
      [| reflexivity].
    apply Nat.ltb_lt in E. apply IH. lia.
Qed.

(** C7, as amended.  Normalization checks nothing: every token is a
    non-empty string without the delimiter [_], whatever the input, and an
    input character that no rule rewrites stays a token.  It is the atom
    level that rejects a token which is neither a number nor one of its
    words, by throwing InvalidExpression with the tokens left. *)
Theorem tokens_are_nonempty_and_unchecked (s : jstring) :
  Forall (fun p => p <> [] /\ ~ In 95%N p) (tokenize s)
  /\ forall M fuel first parts,
       isNaN (StringToNumber first) = true ->
       is_atom_word first = false ->
       eval__read_expression M (S fuel) (first :: parts)
       = Throw (InvalidExpression
                  (str "Invalid expression: "
                     ++ join (str " ") (first :: parts))).
Proof.
  split.
  - unfold tokenize. apply filter_nonempty_Forall, split_on_no_separator.
  - intros M fuel first parts Hnan Hw.
    assert (Hsp : eqb first (str " ") = false).
    { destruct (eqb first (str " ")) eqn:E; [| reflexivity].
      apply eqb_eq in E. subst first. vm_compute in Hnan. discriminate. }
    destruct (is_atom_word_false first Hw) as (H1 & H2 & H3 & H4 & H5 & H6).
    cbn [eval__read_expression skip_spaces].
    rewrite Hsp, Hnan, H1, H2, H3, H4, H5, H6. reflexivity.
Qed.

(** C7 fails as stated: the letter [x] passes normalization as a token,
    and it is not in the alphabet. *)
Lemma unrecognized_token_survives :
  tokenize (str "x") = [str "x"] /\ recognized (str "x") = false.
Proof.
  split; vm_compute; reflexivity.
Qed.

(** ** The evaluator depends on the platform through its values only *)

Lemma bind_ext {A B : Type} (m m' : result A) (k k' : A -> result B) :
  m = m' -> (forall a, k a = k' a) -> bind m k = bind m' k'.
Proof.
  intros -> H. destruct m'; simpl; auto.
Qed.

(** One step through two terms of the same shape. *)
Ltac ext_step :=
  first
    [ reflexivity
    | match goal with H : forall _, _ = _ |- _ => apply H end
    | apply bind_ext; [| intros ? ]
    | match goal with
      | |- (if ?b then _ else _) = (if ?b then _ else _) => destruct b
      | |- match ?x with _ => _ end = match ?x with _ => _ end => destruct x
      end ].

Section Extensionality.

Variables M M' : MathLib.
Hypothesis HM : same_math M M'.

Section Operations.

Variables ev ev' : value -> result t.
Hypothesis Hev : forall v, ev v = ev' v.

Lemma assign_real_ext real : assign_real ev real = assign_real ev' real.
Proof. destruct real; simpl; auto. Qed.

Lemma new1_ext real : new1 ev real = new1 ev' real.
Proof. unfold new1. rewrite assign_real_ext. reflexivity. Qed.

Lemma new_ext real imag : new ev real imag = new ev' real imag.
Proof. unfold new. rewrite assign_real_ext, new1_ext. reflexivity. Qed.

Lemma to_complex_ext n : to_complex ev n = to_complex ev' n.
Proof. destruct n; simpl; auto using new_ext. Qed.

Lemma add_loop_ext numbers newThis :
  add_loop ev newThis numbers = add_loop ev' newThis numbers.
Proof.
  revert newThis; induction numbers as [|n rest IH]; intros; simpl;
    [reflexivity |].
  rewrite to_complex_ext. apply bind_ext; auto.
Qed.

Lemma add_ext numbers : add ev numbers = add ev' numbers.
Proof.
  unfold add. rewrite new_ext. apply bind_ext; auto using add_loop_ext.
Qed.

Lemma sub_loop_ext Rvalues newThis :
  sub_loop ev newThis Rvalues = sub_loop ev' newThis Rvalues.
Proof.
  revert newThis; induction Rvalues as [|n rest IH]; intros; simpl;
    [reflexivity |].
  rewrite to_complex_ext. apply bind_ext; auto.
Qed.

Lemma sub_ext Lvalue Rvalues :
  sub ev Lvalue Rvalues = sub ev' Lvalue Rvalues.
Proof.
  unfold sub. rewrite new_ext. apply bind_ext; auto using sub_loop_ext.
Qed.

Lemma mul_loop_ext numbers real imag :
  mul_loop ev real imag numbers = mul_loop ev' real imag numbers.
Proof.
  revert real imag; induction numbers as [|n rest IH]; intros; simpl;
    [reflexivity |].
  rewrite to_complex_ext. apply bind_ext; auto.
Qed.

Lemma mul_ext numbers : mul ev numbers = mul ev' numbers.
Proof.
  unfold mul. rewrite mul_loop_ext. apply bind_ext; [reflexivity |].
  intros [re im]. apply new_ext.
Qed.

Lemma abs_ext c : abs M c = abs M' c.
Proof. unfold abs. apply HM. Qed.

Lemma angle_ext c : angle M c = angle M' c.
Proof. unfold angle. rewrite abs_ext. apply HM. Qed.

Lemma toExponential_ext c fd : toExponential M c fd = toExponential M' c fd.
Proof. unfold toExponential. rewrite abs_ext, angle_ext. reflexivity. Qed.

Lemma div_step_ext a b cn : div_step M ev a b cn = div_step M' ev' a b cn.
Proof.
  unfold div_step. rewrite !new_ext.
  repeat first [apply toExponential_ext | ext_step].
Qed.

Lemma div_loop_ext Rvalues real imag :
  div_loop M ev real imag Rvalues = div_loop M' ev' real imag Rvalues.
Proof.
  revert real imag; induction Rvalues as [|n rest IH]; intros; simpl;
    [reflexivity |].
  rewrite to_complex_ext. apply bind_ext; [reflexivity | intros cn].
  rewrite div_step_ext. apply bind_ext; [reflexivity | intros [re im]].
  apply IH.
Qed.

Lemma div_ext Lvalue Rvalues :
  div M ev Lvalue Rvalues = div M' ev' Lvalue Rvalues.
Proof.
  unfold div. rewrite to_complex_ext. apply bind_ext; [reflexivity | intros L].
  rewrite div_loop_ext. apply bind_ext; [reflexivity | intros [re im]].
  apply new_ext.
Qed.

Lemma exp_ext terms : exp M ev terms = exp M' ev' terms.
Proof.
  unfold exp. rewrite mul_ext. apply bind_ext; [reflexivity | intros c].
  destruct HM as (Hp & Hc & Hs & _).
  rewrite Hc, Hs, new_ext. apply bind_ext; [reflexivity | intros u].
  rewrite Hp. apply mul_ext.
Qed.

Lemma log_ext terms : log M ev terms = log M' ev' terms.
Proof.
  unfold log. rewrite mul_ext. apply bind_ext; [reflexivity | intros c].
  destruct HM as (_ & _ & _ & Hl & _).
  rewrite abs_ext, angle_ext, Hl. apply new_ext.
Qed.

Lemma pow_ext root exponent :
  pow M ev root exponent = pow M' ev' root exponent.
Proof.
  unfold pow. rewrite log_ext. apply bind_ext; [reflexivity | intros l].
  rewrite mul_ext. apply bind_ext; [reflexivity | intros p]. apply exp_ext.
Qed.

End Operations.

Lemma read_literal_ext first_n parts :
  read_literal M first_n parts = read_literal M' first_n parts.
Proof.
  unfold read_literal. destruct HM as (Hp & _).
  destruct parts as [|p0 [|p1 [|p2 rest]]]; try reflexivity.
  rewrite Hp. reflexivity.
Qed.

(** The arithmetic at a leaf of a level, [Hv] relating the two [eval]s. *)
Ltac ext_leaf Hv :=
  first
    [ apply new_ext; exact Hv | apply mul_ext; exact Hv
    | apply add_ext; exact Hv | apply sub_ext; exact Hv
    | apply div_ext; exact Hv | apply exp_ext; exact Hv
    | apply log_ext; exact Hv | apply pow_ext; exact Hv ].

Lemma levels_ext fuel : levels_agree M M' fuel.
Proof.
  induction fuel as [|fuel (He & Hx & Hm & Ha & Hb & Hv)].
  - repeat split; reflexivity.
  - repeat split.
    + intros parts. cbn [eval__read_expression].
      repeat first [ext_leaf Hv | rewrite read_literal_ext | ext_step].
    + intros parts. cbn [eval__read_exponentiation].
      repeat first [ext_leaf Hv | ext_step].
    + intros parts. cbn [eval__read_multiplication].
      repeat first [ext_leaf Hv | ext_step].
    + intros parts. cbn [eval__read_addition].
      repeat first [ext_leaf Hv | ext_step].
    + intros parts. cbn [eval__read_bracket_contents].
      repeat first [ext_leaf Hv | ext_step].
    + intros num. cbn [eval].
      repeat first [ext_leaf Hv | ext_step].
Qed.

Lemma eval_ext fuel num : eval M fuel num = eval M' fuel num.
Proof. apply levels_ext. Qed.

End Extensionality.

Lemma same_math_with_pow_10_3 M :
  Math_pow M 10 3 = 1000%float -> same_math M (with_pow_10_3 M).
Proof.
  intros Hpow. repeat split; try reflexivity.
  intros x y. simpl.
  destruct (PrimFloat.Leibniz.eqb x 10) eqn:Ex; [| reflexivity].
  destruct (PrimFloat.Leibniz.eqb y 3) eqn:Ey; [| reflexivity].
  apply FloatAxioms.Leibniz.eqb_spec in Ex, Ey. subst. exact Hpow.
Qed.

(** ** The evaluator on given inputs *)

(** [eval_gives] names one outcome at most. *)
Lemma eval_gives_unique M num r r' :
  eval_gives M num r -> eval_gives M num r' -> r = r'.
Proof.
  intros [n Hn] [n' Hn'].
  rewrite <- (Hn (Nat.max n n')) by lia. apply Hn'. lia.
Qed.

(** Runs [eval] on a closed input with [n] units of fuel and any more. *)
Ltac run_eval n :=
  exists n; intros fuel Hfuel;
  replace fuel with (n + (fuel - n))%nat by lia;
  generalize (fuel - n)%nat; intros k; vm_compute; reflexivity.

(** The same on a platform [M] where [10 ** 3] is [1000]. *)
Ltac run_eval_pow n M Hpow :=
  exists n; intros fuel Hfuel;
  rewrite (eval_ext M (with_pow_10_3 M) (same_math_with_pow_10_3 M Hpow));
  replace fuel with (n + (fuel - n))%nat by lia;
  generalize (fuel - n)%nat; intros k; vm_compute; reflexivity.

(** C9.  On a platform where [10 ** 3] is [1000], [eval("1e+3")] is
    [1000 + 0j]: the literal [1] takes the three parts [e], [+], [3] with
    it as a power of ten, and Euler's number is not involved. *)
Theorem eval_scientific_literal (M : MathLib) :
  Math_pow M 10 3 = 1000%float ->
  tokenize (str "1e+3") = [str "1"; str "e"; str "+"; str "3"]
  /\ read_literal M 1 [str "e"; str "+"; str "3"]
     = ((1 * Math_pow M 10 3)%float, [])
  /\ eval_gives M (VString (str "1e+3")) (Ok (mk 1000 0)).
Proof.
  intros Hpow. split; [vm_compute; reflexivity |].
  split; [vm_compute; reflexivity |].
  run_eval_pow 6%nat M Hpow.
Qed.

Lemma eval_scientific_literal_witness :
  Math_pow sample_math 10 3 = 1000%float
  /\ tokenize (str "1e+3") = [str "1"; str "e"; str "+"; str "3"]
  /\ read_literal sample_math 1 [str "e"; str "+"; str "3"]
     = ((1 * Math_pow sample_math 10 3)%float, [])
  /\ eval_gives sample_math (VString (str "1e+3")) (Ok (mk 1000 0)).
Proof.
  split; [reflexivity |].
  apply (eval_scientific_literal sample_math). reflexivity.
Defined.

(** C4 at ["6/2*3"] and ["8/2/2"]: after the quotient the multiplication
    level is entered in front of the operator, which the atom level
    rejects; both inputs throw InvalidExpression instead of giving 9
    and 8, while ["6/2"] alone gives 3. *)
Theorem eval_division_then_operator (M : MathLib) :
  eval_gives M (VString (str "6/2*3"))
    (Throw (InvalidExpression (str "Invalid expression: * 3")))
  /\ eval_gives M (VString (str "8/2/2"))
       (Throw (InvalidExpression (str "Invalid expression: / 2")))
  /\ eval_gives M (VString (str "6/2")) (Ok (mk 3 0)).
Proof.
  split; [run_eval 10%nat |]. split; [run_eval 10%nat | run_eval 10%nat].
Qed.

(** C6 at [new Complex(1.5e30, 0)]: the default rendering is ["1.5e+3"]
    (the zero that ends the exponent is trimmed), which evaluates to
    [1500 + 0j] on a platform where [10 ** 3] is [1000]. *)
Theorem round_trip_loses_exponent (M : MathLib) :
  Math_pow M 10 3 = 1000%float ->
  toString (mk 1.5e30 0) = str "1.5e+3"
  /\ eval_gives M (VString (toString (mk 1.5e30 0))) (Ok (mk 1500 0)).
Proof.
  intros Hpow. split; [vm_compute; reflexivity |].
  run_eval_pow 6%nat M Hpow.
Qed.

Lemma round_trip_loses_exponent_witness :
  Math_pow sample_math 10 3 = 1000%float
  /\ toString (mk 1.5e30 0) = str "1.5e+3"
  /\ eval_gives sample_math (VString (toString (mk 1.5e30 0)))
       (Ok (mk 1500 0)).
Proof.
  split; [reflexivity |].
  apply (round_trip_loses_exponent sample_math). reflexivity.
Defined.

(** C2 fails as stated: [eval("(")] returns [1 + 0j]. *)
Lemma eval_open_bracket_returns :
  exists n, forall M fuel,
    (n <= fuel)%nat -> eval M fuel (VString (str "(")) = Ok (mk 1 0).
Proof.
  exists 8%nat. intros M fuel Hfuel.
  replace fuel with (8 + (fuel - 8))%nat by lia.
  generalize (fuel - 8)%nat; intros k. vm_compute. reflexivity.
Qed.

(** ** Where the levels of the grammar stop *)

Lemma bind_Ok {A B : Type} (m : result A) (k : A -> result B) b :
  bind m k = Ok b -> exists a, m = Ok a /\ k a = Ok b.
Proof.
  destruct m as [a| |]; simpl; intros H; try discriminate. eauto.
Qed.

Lemma skip_spaces_head l p r :
  skip_spaces l = p :: r -> eqb p (str " ") = false.
Proof.
  induction l as [|q l IH]; simpl; [discriminate |].
  destruct (eqb q (str " ")) eqn:E; [exact IH |].
  intros H; injection H as <- <-. exact E.
Qed.

Lemma skip_spaces_stopped l :
  stops_exponentiation l = true -> skip_spaces l = l.
Proof.
  destruct l as [|p l]; simpl; [reflexivity |].
  destruct (eqb p (str " ")); simpl; [discriminate | reflexivity].
Qed.

Lemma end_of_expression_cases p :
  eval__part_is_end_of_expression (Some p) = true ->
  eqb p (str "*") = false -> eqb p (str "/") = false ->
  eqb p (str "^") = false -> eqb p (str " ") = false ->
  (eqb p (str "+") || eqb p (str "-") || eqb p (str ")"))%bool = true.
Proof.
  unfold eval__part_is_end_of_expression. intros H H1 H2 H3 H4.
  rewrite H1, H2, H3, H4 in H.
  rewrite !orb_false_r in H. exact H.
Qed.

Lemma stops_multiplication_cons p l :
  stops_multiplication (p :: l) = true ->
  eqb p (str " ") = false
  /\ (eqb p (str "+") = false -> eqb p (str "-") = false ->
      eqb p (str ")") = true).
Proof.
  unfold stops_multiplication. intros H. split.
  - apply orb_true_iff in H. destruct H as [H | H];
      [apply orb_true_iff in H; destruct H as [H | H] |];
      apply eqb_eq in H; subst p; reflexivity.
  - intros H1 H2. rewrite H1, H2 in H. exact H.
Qed.

Lemma skip_spaces_after_multiplication l :
  stops_multiplication l = true -> skip_spaces l = l.
Proof.
  destruct l as [|p l]; [reflexivity |]. intros H.
  apply stops_multiplication_cons in H. destruct H as [H _].
  simpl. rewrite H. reflexivity.
Qed.

(** Takes apart a hypothesis saying that a level returned. *)
Ltac inv_ok :=
  repeat match goal with
  | H : bind _ _ = Ok _ |- _ =>
      apply bind_Ok in H; destruct H as (? & ? & H)
  | H : Ok _ = Ok _ |- _ => inversion H; subst; clear H
  | H : Throw _ = Ok _ |- _ => discriminate H
  | H : OutOfFuel = Ok _ |- _ => discriminate H
  | H : (if ?b then _ else _) = Ok _ |- _ => destruct b eqn:?
  | H : match ?x with _ => _ end = Ok _ |- _ => destruct x eqn:?
  end.

Lemma levels_stop_all M fuel : levels_stop M fuel.
Proof.
  induction fuel as [|fuel (IHx & IHm & IHa)].
  - repeat split; intros; discriminate.
  - repeat split; intros parts c rest H.
    + cbn [eval__read_exponentiation] in H. inv_ok; eauto.
      unfold stops_exponentiation.
      rewrite (skip_spaces_head _ _ _ Heql), Heqb. reflexivity.
    + cbn [eval__read_multiplication] in H. inv_ok; eauto.
      apply IHx in H0. rewrite (skip_spaces_stopped _ H0) in Heql. subst t1.
      unfold stops_exponentiation in H0.
      apply andb_true_iff in H0. destruct H0 as [Hs Hc].
      apply negb_true_iff in Hs, Hc. apply negb_false_iff in Heqb1.
      apply end_of_expression_cases; assumption.
    + cbn [eval__read_addition] in H. inv_ok; eauto.
      all: repeat match goal with
           | H : eval__read_multiplication _ _ _ = Ok _ |- _ =>
               apply IHm in H
           end.
      all: try match goal with
           | H : stops_multiplication ?t = true, E : skip_spaces ?t = _ |- _ =>
               rewrite (skip_spaces_after_multiplication _ H) in E; subst t
           end.
      all: match goal with
           | H : stops_multiplication (?p :: _) = true
             |- at_closing (?p :: _) = true =>
               apply stops_multiplication_cons in H; destruct H as [_ H];
               apply H
           end.
      all: try assumption.
      all: match goal with
           | H : (_ || _)%bool = false |- _ =>
               apply orb_false_iff in H; destruct H; assumption
           end.
Qed.

(** *** The error of bracket-contents is never thrown *)

Lemma never_bind {A B : Type} (m : result A) (k : A -> result B) :
  never_ParseError m -> (forall a, m = Ok a -> never_ParseError (k a)) ->
  never_ParseError (bind m k).
Proof.
  intros Hm Hk. destruct m as [a| e |]; simpl.
  - apply Hk. reflexivity.
  - intros msg H. injection H as ->. apply (Hm msg). reflexivity.
  - intros msg; discriminate.
Qed.

Lemma never_Ok {A : Type} (a : A) : never_ParseError (Ok a).
Proof. intros msg; discriminate. Qed.

Lemma never_OutOfFuel {A : Type} : never_ParseError (@OutOfFuel A).
Proof. intros msg; discriminate. Qed.

(** One step into a term built from [bind], tests and calls. *)
Ltac np_step :=
  first
    [ apply never_Ok
    | apply never_OutOfFuel
    | solve [intros ?; discriminate]
    | match goal with H : forall _, never_ParseError _ |- _ => apply H end
    | apply never_bind; [| intros ? ? ]
    | match goal with
      | |- never_ParseError (if ?b then _ else _) => destruct b eqn:?
      | |- never_ParseError (match ?x with _ => _ end) => destruct x eqn:?
      end ].

Section NoParseError.

Variable M : MathLib.

Section Operations.

Variable ev : value -> result t.
Hypothesis Hev : forall v, never_ParseError (ev v).

Lemma never_assign_real real : never_ParseError (assign_real ev real).
Proof. destruct real; simpl; repeat np_step. Qed.

Lemma never_check_nan real imag this :
  never_ParseError (check_nan real imag this).
Proof. unfold check_nan. repeat np_step. Qed.

Lemma never_new1 real : never_ParseError (new1 ev real).
Proof.
  unfold new1.
  repeat first [apply never_assign_real | apply never_check_nan | np_step].
Qed.

Lemma never_new real imag : never_ParseError (new ev real imag).
Proof.
  unfold new.
  repeat first [apply never_assign_real | apply never_check_nan
               | apply never_new1 | np_step].
Qed.

Lemma never_to_complex n : never_ParseError (to_complex ev n).
Proof. destruct n; simpl; repeat first [apply never_new | np_step]. Qed.

Lemma never_add_loop numbers :
  forall newThis, never_ParseError (add_loop ev newThis numbers).
Proof.
  induction numbers as [|n rest IH]; intros; simpl;
    repeat first [apply never_to_complex | apply IH | np_step].
Qed.

Lemma never_add numbers : never_ParseError (add ev numbers).
Proof.
  unfold add. repeat first [apply never_new | apply never_add_loop | np_step].
Qed.

Lemma never_sub_loop Rvalues :
  forall newThis, never_ParseError (sub_loop ev newThis Rvalues).
Proof.
  induction Rvalues as [|n rest IH]; intros; simpl;
    repeat first [apply never_to_complex | apply IH | np_step].
Qed.

Lemma never_sub Lvalue Rvalues : never_ParseError (sub ev Lvalue Rvalues).
Proof.
  unfold sub. repeat first [apply never_new | apply never_sub_loop | np_step].
Qed.

Lemma never_mul_loop numbers :
  forall real imag, never_ParseError (mul_loop ev real imag numbers).
Proof.
  induction numbers as [|n rest IH]; intros; simpl;
    repeat first [apply never_to_complex | apply IH | np_step].
Qed.

Lemma never_mul numbers : never_ParseError (mul ev numbers).
Proof.
  unfold mul. repeat first [apply never_new | apply never_mul_loop | np_step].
Qed.

Lemma never_or_range_error o : never_ParseError (or_range_error o).
Proof. destruct o; simpl; repeat np_step. Qed.

Lemma never_toExponential c fd : never_ParseError (toExponential M c fd).
Proof.
  unfold toExponential. repeat first [apply never_or_range_error | np_step].
Qed.

Lemma never_div_step a b cn : never_ParseError (div_step M ev a b cn).
Proof.
  unfold div_step.
  repeat first [apply never_new | apply never_toExponential | np_step].
Qed.

Lemma never_div_loop Rvalues :
  forall real imag, never_ParseError (div_loop M ev real imag Rvalues).
Proof.
  induction Rvalues as [|n rest IH]; intros; simpl;
    repeat first [apply never_to_complex | apply never_div_step | apply IH
                 | np_step].
Qed.

Lemma never_div Lvalue Rvalues : never_ParseError (div M ev Lvalue Rvalues).
Proof.
  unfold div.
  repeat first [apply never_to_complex | apply never_div_loop
               | apply never_new | np_step].
Qed.

Lemma never_exp terms : never_ParseError (exp M ev terms).
Proof.
  unfold exp. repeat first [apply never_mul | apply never_new | np_step].
Qed.

Lemma never_log terms : never_ParseError (log M ev terms).
Proof.
  unfold log. repeat first [apply never_mul | apply never_new | np_step].
Qed.

Lemma never_pow root exponent : never_ParseError (pow M ev root exponent).
Proof.
  unfold pow.
  repeat first [apply never_log | apply never_mul | apply never_exp | np_step].
Qed.

End Operations.

(** The arithmetic at a leaf of a level, [Hv] being the fact for [eval]. *)
Ltac np_leaf Hv :=
  first
    [ apply never_new; exact Hv | apply never_mul; exact Hv
    | apply never_add; exact Hv | apply never_sub; exact Hv
    | apply never_div; exact Hv | apply never_exp; exact Hv
    | apply never_log; exact Hv | apply never_pow; exact Hv ].

Lemma levels_never_ParseError_all fuel : levels_never_ParseError M fuel.
Proof.
  induction fuel as [|fuel (He & Hx & Hm & Ha & Hb & Hv)].
  - repeat split; intros; apply never_OutOfFuel.
  - repeat split.
    + intros parts. cbn [eval__read_expression].
      repeat first [np_leaf Hv | np_step].
    + intros parts. cbn [eval__read_exponentiation].
      repeat first [np_leaf Hv | np_step].
    + intros parts. cbn [eval__read_multiplication].
      repeat first [np_leaf Hv | np_step].
    + intros parts. cbn [eval__read_addition].
      repeat first [np_leaf Hv | np_step].
    + intros parts. cbn [eval__read_bracket_contents].
      repeat first [np_leaf Hv | np_step].
      match goal with
      | H : eval__read_addition _ _ _ = Ok (_, ?r), E : at_closing ?r = false
        |- _ => apply (levels_stop_all M fuel) in H; congruence
      end.
    + intros num. cbn [eval].
      repeat first [np_leaf Hv | np_step].
Qed.

End NoParseError.

(** C2, as amended.  Bracket-contents returns the identity without
    consuming anything when, after leading spaces and [+], the sequence
    is exhausted or starts with [)]; otherwise it returns the value of the
    addition level whenever that level returns, having consumed the [)]
    that follows if there is one.  The addition level stops in front of
    [)] or at the end of the sequence and nowhere else, so [eval] never
    ends in the error of bracket-contents.  Unbalanced brackets are
    accepted: an unclosed bracket is closed by the end of the input
    ([eval("(")] is [1 + 0j]), and what follows an unmatched [)] is left
    unread. *)
Theorem bracket_contents_closes_at_end_of_input (M : MathLib) :
  (forall fuel parts,
      at_closing (skip_spaces_plus parts) = true ->
      eval__read_bracket_contents M (S fuel) parts
      = Ok (mk 1 0, skip_spaces_plus parts))
  /\ (forall fuel parts contents rest,
        at_closing (skip_spaces_plus parts) = false ->
        eval__read_addition M fuel (unshift_zero (skip_spaces_plus parts))
        = Ok (contents, rest) ->
        at_closing rest = true
        /\ eval__read_bracket_contents M (S fuel) parts
           = Ok (contents, tl rest))
  /\ (forall fuel num msg, eval M fuel num <> Throw (ParseError msg))
  /\ eval_gives M (VString (str "(")) (Ok (mk 1 0))
  /\ eval_gives M (VString (str "(2+3")) (Ok (mk 5 0))
  /\ eval_gives M (VString (str "2)3")) (Ok (mk 2 0)).
Proof.
  split; [| split; [| split; [| split; [| split]]]].
  - intros fuel parts H. cbn [eval__read_bracket_contents]. rewrite H.
    reflexivity.
  - intros fuel parts contents rest Hne Ha.
    assert (Hc : at_closing rest = true)
      by (eapply (levels_stop_all M fuel); exact Ha).
    split; [exact Hc |].
    cbn [eval__read_bracket_contents]. rewrite Hne, Ha. simpl. rewrite Hc.
    reflexivity.
  - intros fuel num. apply (levels_never_ParseError_all M fuel).
  - run_eval 8%nat.
  - run_eval 12%nat.
  - run_eval 8%nat.
Qed.

(** ** Division *)

Lemma Number_toExponential_None x :
  exists s, JSNumber.toExponential x None = Some s.
Proof.
  unfold JSNumber.toExponential. cbn [ToIntegerOrInfinity].
  destruct (negb (is_finite x)); [eexists; reflexivity |].
  cbn [Z.ltb Z.compare orb].
  destruct (Prim2SF x) as [s|s| |s m e].
  - eexists; reflexivity.
  - eexists; reflexivity.
  - eexists; reflexivity.
  - destruct (ratio m e) as [num den].
    destruct (shortest 17 (PrimFloat.abs x) num den (decimal_exponent num den) 1)
      as [[n k] d].
    eexists; reflexivity.
Qed.

Lemma toExponential_None M c : exists e, toExponential M c None = Ok e.
Proof.
  unfold toExponential. destruct (truthy (Complex.imag c)).
  - destruct (abs M c =? 1)%float, (angle M c / Math_PI =? 1)%float;
      eexists; reflexivity.
  - destruct (Number_toExponential_None (Complex.real c)) as [s ->].
    eexists; reflexivity.
Qed.

Lemma has_NaN_false c :
  has_NaN c = false ->
  isNaN (Complex.real c) = false /\ isNaN (Complex.imag c) = false.
Proof. unfold has_NaN. apply orb_false_iff. Qed.

Lemma div_loop_steps M ev rs : forall a b,
  isNaN a = false -> isNaN b = false ->
  forallb (fun r => negb (has_NaN r)) rs = true ->
  match div_steps a b rs with
  | inr (re, im) =>
      div_loop M ev a b (map VComplex rs) = Ok (re, im)
      /\ isNaN re = false /\ isNaN im = false
  | inl (a', b', cn) =>
      exists e,
        toExponential M (mk a' (or_zero b')) None = Ok e
        /\ div_loop M ev a b (map VComplex rs)
           = Throw (DivisionError
                      (str "Cannot evaluate " ++ e ++ str " / "
                         ++ toString (mk cn.(Complex.real)
                                         (or_zero cn.(Complex.imag)))))
  end.
Proof.
  induction rs as [|cn rs IH]; intros a b Ha Hb Hrs.
  - simpl. auto.
  - cbn [forallb] in Hrs. apply andb_true_iff in Hrs.
    destruct Hrs as [Hcn Hrs]. apply negb_true_iff, has_NaN_false in Hcn.
    destruct Hcn as [Hc Hd].
    cbn [div_steps map div_loop to_complex bind]. unfold div_step, quotient.
    destruct (isNaN ((a * Complex.real cn + b * Complex.imag cn)
                     / (Complex.real cn * Complex.real cn
                        + Complex.imag cn * Complex.imag cn))
              || isNaN ((b * Complex.real cn - a * Complex.imag cn)
                        / (Complex.real cn * Complex.real cn
                           + Complex.imag cn * Complex.imag cn)))%bool eqn:E.
    + rewrite (new_numbers ev a b Ha Hb), (new_numbers ev _ _ Hc Hd).
      destruct (toExponential_None M (mk a (or_zero b))) as [e He].
      exists e. split; [exact He |].
      cbn [bind]. rewrite He. reflexivity.
    + apply orb_false_iff in E. destruct E as [Er Ei].
      cbn [bind]. apply IH; assumption.
Qed.

(** C3, as amended.  For operands without NaN, [div] goes through its
    divisors as [div_steps] does: it throws DivisionError at the first
    step whose real or imaginary part is NaN, with a message that names
    the numerator of that step (in exponential form) and its divisor, and
    otherwise returns the last quotient, which may be infinite.  A zero
    divisor makes the real part NaN whatever the numerator, and
    [div(1, 0)] throws ["Cannot evaluate 1e+0 / 0"]. *)
Theorem div_throws_at_first_NaN (M : MathLib) (ev : value -> result t)
    (x : t) (rs : list t) :
  has_NaN x = false ->
  forallb (fun r => negb (has_NaN r)) rs = true ->
  match div_steps x.(real) x.(imag) rs with
  | inr (re, im) =>
      div M ev (VComplex x) (map VComplex rs) = Ok (mk re (or_zero im))
  | inl (a, b, cn) =>
      exists e,
        toExponential M (mk a (or_zero b)) None = Ok e
        /\ div M ev (VComplex x) (map VComplex rs)
           = Throw (DivisionError
                      (str "Cannot evaluate " ++ e ++ str " / "
                         ++ toString (mk cn.(real) (or_zero cn.(imag)))))
  end
  /\ (forall a b c d,
        is_zero c = true -> is_zero d = true ->
        isNaN (fst (quotient a b c d)) = true)
  /\ div M ev (VNumber 1) [VNumber 0]
     = Throw (DivisionError (str "Cannot evaluate 1e+0 / 0")).
Proof.
  intros Hx Hrs. apply has_NaN_false in Hx. destruct Hx as [Ha Hb].
  split; [| split].
  - pose proof (div_loop_steps M ev rs _ _ Ha Hb Hrs) as H.
    unfold div. cbn [to_complex bind].
    destruct (div_steps (Complex.real x) (Complex.imag x) rs)
      as [[[a b] cn] | [re im]].
    + destruct H as (e & He & H). exists e. split; [exact He |].
      rewrite H. reflexivity.
    + destruct H as (H & Hre & Him). rewrite H. cbn [bind].
      apply new_numbers; assumption.
  - intros a b c d Hc Hd. unfold quotient. cbn [fst].
    apply quotient_by_zero_is_NaN; assumption.
  - vm_compute. reflexivity.
Qed.

(** Six by two. *)
Lemma div_throws_at_first_NaN_witness :
  has_NaN (mk 6 0) = false
  /\ forallb (fun r => negb (has_NaN r)) [mk 2 0] = true
  /\ div sample_math (fun _ => OutOfFuel) (VComplex (mk 6 0))
       [VComplex (mk 2 0)] = Ok (mk 3 0).
Proof.
  split; [reflexivity |]. split; [reflexivity |].
  exact (proj1 (div_throws_at_first_NaN sample_math (fun _ => OutOfFuel)
                  (mk 6 0) [mk 2 0] eq_refl eq_refl)).
Defined.

(** C3 fails as stated: [(1 + 1j) / 1e-200] has a divisor whose squared
    magnitude underflows to zero and a quotient with two infinite parts,
    and [div] returns it. *)
Lemma div_returns_infinite_quotient :
  exists x y c,
    (forall M ev, div M ev (VComplex x) [VNumber y] = Ok c)
    /\ (y * y + 0 * 0 =? 0)%float = true
    /\ both_finite c = false.
Proof.
  exists (mk 1 1), 1e-200%float, (mk infinity infinity).
  split; [intros M ev; vm_compute; reflexivity |].
  split; vm_compute; reflexivity.
Qed.

(** ** Further inputs *)

(** The literal scenarios of the evaluator: sums, a bracket, the imaginary
    unit after a number, a leading minus, a chain of subtractions read
    from the left, and two numbers side by side. *)
Theorem eval_literal_scenarios (M : MathLib) :
  eval_gives M (VString (str "3+4j")) (Ok (mk 3 4))
  /\ eval_gives M (VString (str "2*(3+j)")) (Ok (mk 6 2))
  /\ eval_gives M (VString (str "2j")) (Ok (mk 0 2))
  /\ eval_gives M (VString (str "-3-4j")) (Ok (mk (-3) (-4)))
  /\ eval_gives M (VString (str "1-2-3")) (Ok (mk (-4) 0))
  /\ eval_gives M (VString (str "2 3")) (Ok (mk 6 0)).
Proof.
  repeat split; run_eval 16%nat.
Qed.

(** The fields are checked by the constructor only: [add] and [sub] update
    them afterwards, so [Complex.add(Infinity, -Infinity)] returns a value
    whose real part is NaN. *)
Theorem add_can_return_NaN (ev : value -> result t) :
  add ev [VNumber infinity; VNumber neg_infinity] = Ok (mk nan 0)
  /\ sub ev (VNumber infinity) [VNumber infinity] = Ok (mk nan 0).
Proof.
  split; reflexivity.
Qed.

(** Whenever a level of the grammar returns, the parts left start as
    follows: after the exponentiation level neither with a space nor with
    [^]; after the multiplication level with [+], [-], [)] or not at all;
    after the addition level with [)] or not at all. *)
Theorem levels_leave_the_next_level (M : MathLib) (fuel : nat) :
  levels_stop M fuel.
Proof.
  apply levels_stop_all.
Qed.

(** ** Where the atom level stops *)

Lemma atom_stops M fuel : forall parts rest c,
  eval__read_expression M fuel parts = Ok (c, rest) ->
  eval__part_is_end_of_expression (first_part rest) = true.
Proof.
  induction fuel as [|fuel IH]; intros parts rest c H; [discriminate |].
  cbn [eval__read_expression] in H. inv_ok; eauto.
Qed.

(** Whenever the atom level returns, the parts left start with an
    end-of-expression marker or there is none left: an atom takes with it,
    as factors, all the atoms that follow it directly.  Skipping spaces
    after it uncovers a part that is no marker only if a space was there:
    the branch of the multiplication level for such a part is not reached
    from an atom without a space in between.  That branch puts the
    product back as the parts [(], real part, [+], imaginary part, [)],
    the imaginary part without its [j]: [eval("2j")] is [2j],
    [eval("2 j")] is [2 + 0j]. *)
Theorem atom_level_stops_at_a_marker (M : MathLib) :
  (forall fuel parts rest c,
      eval__read_expression M fuel parts = Ok (c, rest) ->
      eval__part_is_end_of_expression (first_part rest) = true)
  /\ (forall fuel parts rest c,
        eval__read_expression M fuel parts = Ok (c, rest) ->
        eval__part_is_end_of_expression (first_part (skip_spaces rest))
        = false ->
        exists r, rest = str " " :: r)
  /\ eval__read_expression M 8 [str "2"; str "j"; str "3"; str "+"]
     = Ok (mk 0 6, [str "+"])
  /\ eval_gives M (VString (str "2j")) (Ok (mk 0 2))
  /\ eval_gives M (VString (str "2 j")) (Ok (mk 2 0)).
Proof.
  split; [intros fuel; apply atom_stops |].
  split.
  { intros fuel parts rest c H Hs. apply atom_stops in H.
    destruct rest as [|p r]; [discriminate Hs |].
    cbn [skip_spaces] in Hs.
    destruct (eqb p (str " ")) eqn:E.
    - apply eqb_eq in E. subst p. exists r. reflexivity.
    - cbn [first_part] in H, Hs. congruence. }
  split; [vm_compute; reflexivity |].
  split; [run_eval 16%nat | run_eval 16%nat].
Qed.

(** ** An operator after a quotient *)

Lemma atom_rejects M fuel first parts :
  isNaN (StringToNumber first) = true ->
  is_atom_word first = false ->
  eval__read_expression M (S fuel) (first :: parts)
  = Throw (InvalidExpression
             (str "Invalid expression: " ++ join (str " ") (first :: parts))).
Proof.
  intros Hnan Hw.
  assert (Hsp : eqb first (str " ") = false).
  { destruct (eqb first (str " ")) eqn:E; [| reflexivity].
    apply eqb_eq in E. subst first. vm_compute in Hnan. discriminate. }
  destruct (is_atom_word_false first Hw) as (H1 & H2 & H3 & H4 & H5 & H6).
  cbn [eval__read_expression skip_spaces].
  rewrite Hsp, Hnan, H1, H2, H3, H4, H5, H6. reflexivity.
Qed.

Lemma operator_is_rejected p :
  is_operator_after_quotient p = true ->
  isNaN (StringToNumber p) = true /\ is_atom_word p = false.
Proof.
  unfold is_operator_after_quotient. cbn [existsb].
  rewrite !orb_true_iff, !eqb_eq.
  intros [H | [H | [H | [H | H]]]]; try discriminate; subst p;
    split; vm_compute; reflexivity.
Qed.

(** When the multiplication level has read [left / d] and the divisor is
    followed by [*], [/], [+] or [)], the level is entered again in front
    of that operator and the atom level rejects it: the call throws
    InvalidExpression with the operator and the parts after it.  So
    [a/b*c], [a/b/c], [a/b+c] and [(a/b)] are rejected whatever the
    operands. *)
Theorem quotient_then_operator_throws (M : MathLib) (fuel : nat)
    (parts r rest : tokens) (left_ d q : t) (p : jstring) :
  eval__read_exponentiation M (3 + fuel) parts = Ok (left_, str "/" :: r) ->
  eval__read_exponentiation M (3 + fuel) r = Ok (d, p :: rest) ->
  div M (eval M (3 + fuel)) (VComplex left_) [VComplex d] = Ok q ->
  is_operator_after_quotient p = true ->
  eval__read_multiplication M (4 + fuel) parts
  = Throw (InvalidExpression
             (str "Invalid expression: " ++ join (str " ") (p :: rest))).
Proof.
  intros Hl Hd Hq Hp.
  destruct (operator_is_rejected p Hp) as [Hnan Hw].
  change (4 + fuel)%nat with (S (3 + fuel)).
  cbn [eval__read_multiplication]. rewrite Hl. cbn [bind skip_spaces].
  change (eqb (str "/") (str " ")) with false. cbv iota.
  change (eqb (str "/") (str "*")) with false.
  change (eqb (str "/") (str "/")) with true. cbv iota.
  rewrite Hd. cbn [bind]. rewrite Hq. cbn [bind].
  change (3 + fuel)%nat with (S (S (S fuel))).
  cbn [eval__read_multiplication eval__read_exponentiation].
  rewrite (atom_rejects M fuel p rest Hnan Hw). reflexivity.
Qed.

(** The parts of ["6/2+1"]. *)
Lemma quotient_then_operator_throws_witness :
  eval__read_exponentiation sample_math 3
    [str "6"; str "/"; str "2"; str "+"; str "1"]
  = Ok (mk 6 0, [str "/"; str "2"; str "+"; str "1"])
  /\ eval__read_exponentiation sample_math 3 [str "2"; str "+"; str "1"]
     = Ok (mk 2 0, [str "+"; str "1"])
  /\ div sample_math (eval sample_math 3) (VComplex (mk 6 0)) [VComplex (mk 2 0)]
     = Ok (mk 3 0)
  /\ is_operator_after_quotient (str "+") = true
  /\ eval__read_multiplication sample_math 4
       [str "6"; str "/"; str "2"; str "+"; str "1"]
     = Throw (InvalidExpression (str "Invalid expression: + 1")).
Proof.
  split; [vm_compute; reflexivity |]. split; [vm_compute; reflexivity |].
  split; [vm_compute; reflexivity |]. split; [reflexivity |].
  apply (quotient_then_operator_throws sample_math 0
           [str "6"; str "/"; str "2"; str "+"; str "1"]
           [str "2"; str "+"; str "1"] [str "1"] (mk 6 0) (mk 2 0) (mk 3 0)
           (str "+")); vm_compute; reflexivity.
Defined.

(** ** Conversions never give NaN *)

Lemma shr_1_nonneg mrs : (0 <= shr_m mrs)%Z -> (0 <= shr_m (shr_1 mrs))%Z.
Proof.
  destruct mrs as [m r s]. simpl.
  destruct m as [|[p|p|]|[p|p|]]; simpl; lia.
Qed.

Lemma iter_shr_1_nonneg p : forall mrs,
  (0 <= shr_m mrs)%Z -> (0 <= shr_m (iter_pos shr_1 p mrs))%Z.
Proof.
  induction p as [p IH|p IH|]; intros mrs H; simpl.
  - apply IH, IH, shr_1_nonneg, H.
  - apply IH, IH, H.
  - apply shr_1_nonneg, H.
Qed.

Lemma shr_fexp_nonneg m e l :
  (0 <= m)%Z -> (0 <= shr_m (fst (shr_fexp prec emax m e l)))%Z.
Proof.
  intros H. unfold shr_fexp, shr.
  assert (H0 : (0 <= shr_m (shr_record_of_loc m l))%Z)
    by (destruct l as [|[| |]]; exact H).
  destruct (fexp prec emax (Zdigits2 m + e) - e)%Z; simpl; auto.
  apply iter_shr_1_nonneg, H0.
Qed.

Lemma round_nearest_even_nonneg m l :
  (0 <= m)%Z -> (0 <= round_nearest_even m l)%Z.
Proof.
  intros H. unfold round_nearest_even.
  destruct l as [|[| |]]; try destruct (IntDef.Z.even m); lia.
Qed.

(** Rounding a non-negative mantissa gives a zero, a finite number or an
    infinity. *)
Lemma binary_round_aux_not_nan s m e l :
  (0 <= m)%Z -> binary_round_aux prec emax s m e l <> S754_nan.
Proof.
  intros H. unfold binary_round_aux.
  pose proof (shr_fexp_nonneg m e l H) as H1.
  destruct (shr_fexp prec emax m e l) as [mrs' e'].
  cbn [fst] in H1.
  pose proof (shr_fexp_nonneg _ e' loc_Exact
                (round_nearest_even_nonneg _ (loc_of_shr_record mrs') H1)) as H2.
  destruct (shr_fexp prec emax
              (round_nearest_even (shr_m mrs') (loc_of_shr_record mrs')) e'
              loc_Exact) as [mrs'' e''].
  cbn [fst] in H2.
  destruct (shr_m mrs'') as [|p|p]; [discriminate | | lia].
  destruct (e'' <=? emax - prec)%Z; discriminate.
Qed.

Lemma binary_round_not_nan s m e : binary_round prec emax s m e <> S754_nan.
Proof.
  unfold binary_round.
  destruct (shl_align m e (fexp prec emax (Z.pos (digits2_pos m) + e)))
    as [mz ez].
  apply binary_round_aux_not_nan. lia.
Qed.

Lemma SFldexp_not_nan f e : f <> S754_nan -> SFldexp prec emax f e <> S754_nan.
Proof.
  destruct f; simpl; auto. intros _. apply binary_round_not_nan.
Qed.

Lemma SF2Prim_not_nan f : f <> S754_nan -> is_nan (SF2Prim f) = false.
Proof.
  intros H. destruct f as [s|s| |s m e]; try (destruct s; reflexivity);
    [contradiction |].
  assert (Hl : Prim2SF (Z.ldexp (of_uint63 (Uint63Axioms.of_Z (Z.pos m))) e)
               <> S754_nan).
  { unfold Z.ldexp. rewrite ldshiftexp_spec. apply SFldexp_not_nan.
    rewrite of_uint63_spec. unfold binary_normalize.
    destruct (Uint63Axioms.to_Z (Uint63Axioms.of_Z (Z.pos m)));
      [discriminate | apply binary_round_not_nan | apply binary_round_not_nan]. }
  rewrite is_nan_spec. cbn [SF2Prim].
  destruct s.
  - rewrite opp_spec.
    destruct (Prim2SF (Z.ldexp (of_uint63 (Uint63Axioms.of_Z (Z.pos m))) e));
      try reflexivity; contradiction.
  - destruct (Prim2SF (Z.ldexp (of_uint63 (Uint63Axioms.of_Z (Z.pos m))) e));
      try reflexivity; contradiction.
Qed.

Lemma SFdiv_finite_not_nan s n d :
  SFdiv prec emax (S754_finite s n 0) (S754_finite false d 0) <> S754_nan.
Proof.
  cbn [SFdiv]. unfold SFdiv_core_binary.
  set (e' := IntDef.Z.min _ _).
  set (m' := match (0 - 0 - e')%Z with
             | 0%Z => Z.pos n
             | Z.pos _ => IntDef.Z.shiftl (Z.pos n) (0 - 0 - e')
             | Z.neg _ => 0%Z
             end).
  assert (Hm : (0 <= m')%Z).
  { subst m'. destruct (0 - 0 - e')%Z eqn:E; try lia.
    apply Z.shiftl_nonneg. lia. }
  pose proof (Z.div_pos m' (Z.pos d) Hm eq_refl) as Hq.
  unfold Z.div in Hq.
  change IntDef.Z.div_eucl with Z.div_eucl.
  destruct (Z.div_eucl m' (Z.pos d)) as [q r].
  apply binary_round_aux_not_nan. exact Hq.
Qed.

(** A decimal value read from a string, or a bigint, is never NaN. *)
Lemma round_ratio_not_nan neg num den : isNaN (round_ratio neg num den) = false.
Proof.
  unfold round_ratio, isNaN.
  destruct num as [|n|n]; try (destruct neg; reflexivity).
  destruct den as [|d|d]; try (destruct neg; reflexivity).
  apply SF2Prim_not_nan, SFdiv_finite_not_nan.
Qed.

Lemma of_decimal_not_nan neg m e : isNaN (of_decimal neg m e) = false.
Proof.
  unfold of_decimal. destruct (0 <=? e)%Z; apply round_ratio_not_nan.
Qed.

(** ** The constructor on numbers *)

Lemma new_number ev x :
  isNaN x = false -> new ev (VNumber x) VUndefined = Ok (mk x 0).
Proof.
  intros H. unfold new, check_nan. simpl. rewrite H. reflexivity.
Qed.

Lemma new_two_numbers ev a b :
  new ev (VNumber a) (VNumber b)
  = if isNaN a then Throw (cannot_construct a b) else Ok (mk a (or_zero b)).
Proof.
  unfold new, or_zero, cannot_construct. simpl.
  destruct (truthy b) eqn:Tb.
  - assert (Hb : isNaN b = false).
    { unfold truthy in Tb. apply negb_true_iff, orb_false_iff in Tb.
      exact (proj1 Tb). }
    unfold new1, check_nan. simpl. rewrite Hb. simpl.
    rewrite sub_zero_r, (add_zero_l b Tb), Hb, orb_false_r. reflexivity.
  - unfold check_nan. simpl.
    change (isNaN 0) with false. rewrite orb_false_r. reflexivity.
Qed.

(** The constructor on arguments that are no strings.  Without arguments
    it gives [0 + 0j]; every bigint is accepted; a number [x] is accepted
    unless it is NaN; a Complex is copied unless it holds a NaN.  With two
    numbers it throws exactly when the first is NaN: a second argument
    that is NaN is falsy, hence ignored like a zero, so
    [new Complex(1, NaN)] is [1 + 0j]. *)
Theorem constructor_on_numbers (ev : value -> result t) :
  new ev VUndefined VUndefined = Ok (mk 0 0)
  /\ (forall z, new ev (VBigint z) VUndefined = Ok (mk (Number_of_bigint z) 0))
  /\ (forall x, new ev (VNumber x) VUndefined
                = if isNaN x
                  then Throw (InvalidNumber
                                (str "Cannot construct complex number from [NaN, undefined]"))
                  else Ok (mk x 0))
  /\ (forall c, new ev (VComplex c) VUndefined
                = if has_NaN c
                  then Throw (InvalidNumber
                                (str "Cannot construct complex number from ["
                                   ++ toString c ++ str ", undefined]"))
                  else Ok c)
  /\ (forall a b, new ev (VNumber a) (VNumber b)
                  = if isNaN a then Throw (cannot_construct a b)
                    else Ok (mk a (or_zero b)))
  /\ new ev (VNumber 1) (VNumber nan) = Ok (mk 1 0).
Proof.
  split; [reflexivity |]. split; [| split; [| split; [| split]]].
  - intros z. unfold new. cbn [assign_real truthy_value bind].
    unfold check_nan, Number_of_bigint. cbn [Complex.real Complex.imag].
    rewrite round_ratio_not_nan. reflexivity.
  - intros x. unfold new, check_nan. simpl.
    change (isNaN 0) with false. rewrite orb_false_r.
    destruct (isNaN x) eqn:E; [| reflexivity].
    unfold NumberToString. unfold isNaN in E. rewrite is_nan_spec in E.
    destruct (Prim2SF x); try discriminate. reflexivity.
  - intros c. unfold new, check_nan, has_NaN. simpl.
    destruct c as [re im]. reflexivity.
  - apply new_two_numbers.
  - reflexivity.
Qed.

(** ** Products and sums *)

Lemma mul_loop_product ev cs : forall re im,
  mul_loop ev re im (map VComplex cs) = Ok (product re im cs).
Proof.
  induction cs as [|c cs IH]; intros re im; simpl; [reflexivity | apply IH].
Qed.

(** [Complex.mul] on Complex operands computes the product from the left,
    starting from [1 + 0j], and passes its two parts to the constructor:
    it throws InvalidNumber exactly when the real part of the product is
    NaN, and otherwise returns the product with an imaginary part that is
    NaN or a zero replaced by [+0].  The order of the operands matters at
    infinity: [mul(Infinity, 2)] throws, [mul(2, Infinity)] is
    [Infinity + 0j]. *)
Theorem mul_returns_the_product (ev : value -> result t) (cs : list t) :
  (let (re, im) := product 1 0 cs in
   mul ev (map VComplex cs)
   = if isNaN re then Throw (cannot_construct re im)
     else Ok (mk re (or_zero im)))
  /\ mul ev [VComplex (mk infinity 0); VComplex (mk 2 0)]
     = Throw (cannot_construct nan nan)
  /\ mul ev [VComplex (mk 2 0); VComplex (mk infinity 0)]
     = Ok (mk infinity 0).
Proof.
  split; [| split; vm_compute; reflexivity].
  destruct (product 1 0 cs) as [re im] eqn:E.
  unfold mul. rewrite mul_loop_product, E. cbn [bind].
  apply new_two_numbers.
Qed.

Lemma SFadd_from_zero_comm x y :
  SFadd prec emax (SFadd prec emax (S754_zero false) x) y
  = SFadd prec emax (SFadd prec emax (S754_zero false) y) x.
Proof.
  destruct x as [sx|sx| |sx mx ex], y as [sy|sy| |sy my ey];
    try destruct sx; try destruct sy; try reflexivity;
    cbn [SFadd]; rewrite (Z.min_comm ey ex), Z.add_comm; reflexivity.
Qed.

Lemma add_from_zero_comm x y : (0 + x + y = 0 + y + x)%float.
Proof.
  apply Prim2SF_inj. rewrite !add_spec.
  change (Prim2SF 0) with (S754_zero false). apply SFadd_from_zero_comm.
Qed.

(** [Complex.add] of two Complex operands does not depend on their
    order: the two sums are the same numbers, bit for bit (NaN and the
    sign of a zero included). *)
Theorem add_commutes (ev : value -> result t) (a b : t) :
  add ev [VComplex a; VComplex b] = add ev [VComplex b; VComplex a].
Proof.
  unfold add.
  change (new ev VUndefined VUndefined) with (Ok (mk 0 0)).
  cbn [bind add_loop to_complex Complex.real Complex.imag].
  rewrite (add_from_zero_comm (Complex.real a)),
    (add_from_zero_comm (Complex.imag a)).
  reflexivity.
Qed.

(** ** Surrounding whitespace, letter case and spaces *)

Lemma trim_start_white pre s :
  all_white pre = true -> trim_start (pre ++ s) = trim_start s.
Proof.
  induction pre as [|c pre IH]; simpl; [reflexivity |].
  intros H. apply andb_true_iff in H. destruct H as [Hc H].
  rewrite Hc. apply IH, H.
Qed.

Lemma trim_start_all_white s : all_white s = true -> trim_start s = [].
Proof.
  intros H. rewrite <- (app_nil_r s), (trim_start_white s [] H). reflexivity.
Qed.

Lemma all_white_rev s : all_white (rev s) = all_white s.
Proof.
  unfold all_white. induction s as [|c s IH]; simpl; [reflexivity |].
  rewrite forallb_app, IH. simpl. rewrite andb_true_r. apply andb_comm.
Qed.

Lemma trim_start_app s post :
  all_white post = true ->
  trim_start (rev (trim_start (s ++ post))) = trim_start (rev (trim_start s)).
Proof.
  intros Hp. induction s as [|c s IH]; simpl.
  - rewrite (trim_start_all_white post Hp). reflexivity.
  - destruct (is_white c); [exact IH |].
    change (c :: s ++ post) with ((c :: s) ++ post).
    rewrite rev_app_distr. apply trim_start_white.
    rewrite all_white_rev. exact Hp.
Qed.

Lemma trim_surrounded pre s post :
  all_white pre = true -> all_white post = true ->
  trim (pre ++ s ++ post) = trim s.
Proof.
  intros Hpre Hpost. unfold trim.
  rewrite (trim_start_white pre _ Hpre), (trim_start_app s post Hpost).
  reflexivity.
Qed.

Lemma tokenize_trim s s' : trim s = trim s' -> tokenize s = tokenize s'.
Proof. intros H. unfold tokenize, separate. rewrite H. reflexivity. Qed.

Lemma eval_tokenize M fuel s s' :
  tokenize s = tokenize s' -> eval M fuel (VString s) = eval M fuel (VString s').
Proof.
  intros H. destruct fuel as [|fuel]; [reflexivity |].
  cbn [eval String_]. rewrite H. reflexivity.
Qed.

(** Whitespace and line terminators around the input are ignored: they
    change neither the parts nor what [eval] does. *)
Theorem eval_ignores_surrounding_whitespace (M : MathLib) (fuel : nat)
    (pre s post : jstring) :
  all_white pre = true -> all_white post = true ->
  tokenize (pre ++ s ++ post) = tokenize s
  /\ eval M fuel (VString (pre ++ s ++ post)) = eval M fuel (VString s).
Proof.
  intros Hpre Hpost.
  assert (H : tokenize (pre ++ s ++ post) = tokenize s)
    by (apply tokenize_trim, trim_surrounded; assumption).
  split; [exact H | apply eval_tokenize, H].
Qed.

(** A space before ["2j"] and a line feed after it. *)
Lemma eval_ignores_surrounding_whitespace_witness :
  all_white (str " ") = true /\ all_white [10%N] = true
  /\ tokenize (str " " ++ str "2j" ++ [10%N]) = tokenize (str "2j")
  /\ eval sample_math 8 (VString (str " " ++ str "2j" ++ [10%N]))
     = eval sample_math 8 (VString (str "2j")).
Proof.
  split; [reflexivity |]. split; [reflexivity |].
  apply (eval_ignores_surrounding_whitespace sample_math 8 (str " ") (str "2j")
           [10%N]); reflexivity.
Defined.

(** An input that is empty or holds whitespace only has no parts, and
    [eval] returns [1 + 0j] for it, the value of an empty bracket. *)
Theorem eval_of_blank_input (M : MathLib) (s : jstring) :
  all_white s = true ->
  tokenize s = [] /\ eval_gives M (VString s) (Ok (mk 1 0)).
Proof.
  intros H.
  assert (Ht : tokenize s = tokenize []).
  { apply tokenize_trim. unfold trim. rewrite (trim_start_all_white s H).
    reflexivity. }
  split; [rewrite Ht; reflexivity |].
  exists 2%nat. intros fuel Hfuel.
  rewrite (eval_tokenize M fuel s [] Ht).
  destruct fuel as [|[|fuel]]; [lia | lia | reflexivity].
Qed.

(** Two spaces. *)
Lemma eval_of_blank_input_witness :
  all_white (str "  ") = true
  /\ tokenize (str "  ") = []
  /\ eval_gives sample_math (VString (str "  ")) (Ok (mk 1 0)).
Proof.
  split; [reflexivity |].
  apply (eval_of_blank_input sample_math (str "  ")). reflexivity.
Defined.

Lemma is_white_lower c : is_white (lower c) = is_white c.
Proof.
  unfold lower.
  destruct (N.leb 65 c && N.leb c 90)%bool eqn:E.
  - apply andb_true_iff in E. destruct E as [E1 E2].
    apply N.leb_le in E1, E2.
    unfold is_white. cbn [existsb].
    repeat match goal with
           | |- context [N.eqb ?a ?b] =>
               destruct (N.eqb_spec a b); [lia |]
           end.
    reflexivity.
  - destruct (N.eqb_spec c 928) as [-> | _]; reflexivity.
Qed.

Lemma lower_lower c : lower (lower c) = lower c.
Proof.
  assert (H : forall d, (N.leb 65 d && N.leb d 90)%bool = false ->
                        N.eqb d 928 = false -> lower d = d).
  { intros d H1 H2. unfold lower. rewrite H1, H2. reflexivity. }
  unfold lower at 2 3.
  destruct (N.leb 65 c && N.leb c 90)%bool eqn:E.
  - apply andb_true_iff in E. destruct E as [E1 E2].
    apply N.leb_le in E1, E2. apply H.
    + apply andb_false_iff. right. apply N.leb_gt. lia.
    + apply N.eqb_neq. lia.
  - destruct (N.eqb c 928) eqn:E'; [reflexivity | apply H; assumption].
Qed.

Lemma trim_start_lower s :
  trim_start (toLowerCase s) = toLowerCase (trim_start s).
Proof.
  induction s as [|c s IH]; simpl; [reflexivity |].
  rewrite is_white_lower. destruct (is_white c); [exact IH | reflexivity].
Qed.

Lemma trim_lower s : trim (toLowerCase s) = toLowerCase (trim s).
Proof.
  unfold trim. rewrite trim_start_lower.
  unfold toLowerCase at 1. rewrite <- map_rev.
  fold (toLowerCase (rev (trim_start s))).
  rewrite trim_start_lower. unfold toLowerCase. rewrite map_rev. reflexivity.
Qed.

Lemma split_chars_cons c d s :
  join (str "_") (split_chars (c :: d :: s))
  = c :: 95%N :: join (str "_") (split_chars (d :: s)).
Proof. reflexivity. Qed.

Lemma lower_join_split s :
  toLowerCase (join (str "_") (split_chars s))
  = join (str "_") (split_chars (toLowerCase s)).
Proof.
  induction s as [|c [|d s] IH]; try reflexivity.
  rewrite split_chars_cons.
  change (toLowerCase (c :: d :: s))
    with (lower c :: lower d :: toLowerCase s).
  rewrite split_chars_cons.
  change (toLowerCase (c :: 95%N :: ?x)) with (lower c :: 95%N :: toLowerCase x).
  rewrite IH. reflexivity.
Qed.

Lemma toLowerCase_twice s : toLowerCase (toLowerCase s) = toLowerCase s.
Proof.
  unfold toLowerCase. rewrite map_map. apply map_ext, lower_lower.
Qed.

Lemma separate_lower s : separate (toLowerCase s) = separate s.
Proof.
  unfold separate. rewrite !lower_join_split, trim_lower, toLowerCase_twice.
  reflexivity.
Qed.

(** For an input of ASCII characters, [eval] does not depend on the case
    of the letters: the input and its lower-case form have the same
    parts. *)
Theorem eval_ignores_letter_case (M : MathLib) (fuel : nat) (s : jstring) :
  is_ascii s = true ->
  tokenize (toLowerCase s) = tokenize s
  /\ eval M fuel (VString (toLowerCase s)) = eval M fuel (VString s).
Proof.
  intros _.
  assert (H : tokenize (toLowerCase s) = tokenize s)
    by (unfold tokenize; rewrite separate_lower; reflexivity).
  split; [exact H | apply eval_tokenize, H].
Qed.

(** ["2*J"]. *)
Lemma eval_ignores_letter_case_witness :
  is_ascii (str "2*J") = true
  /\ tokenize (toLowerCase (str "2*J")) = tokenize (str "2*J")
  /\ eval sample_math 9 (VString (toLowerCase (str "2*J")))
     = eval sample_math 9 (VString (str "2*J")).
Proof.
  split; [reflexivity |].
  apply (eval_ignores_letter_case sample_math 9 (str "2*J")). reflexivity.
Defined.

Lemma m_spaces_not_space c rest :
  N.eqb 32 c = false ->
  replace_all m_spaces 0 (c :: rest) = c :: replace_all m_spaces 0 rest.
Proof.
  intros H. cbn [replace_all]. unfold m_spaces. cbn [span]. rewrite H.
  reflexivity.
Qed.

Lemma m_spaces_single c t :
  replace_all m_spaces 0 (c :: 95%N :: t)
  = c :: replace_all m_spaces 0 (95%N :: t).
Proof.
  destruct (N.eqb 32 c) eqn:E; [| apply m_spaces_not_space, E].
  apply N.eqb_eq in E. subst c. reflexivity.
Qed.

(** In a string whose code units are separated by [_], no two spaces are
    adjacent: replacing runs of spaces by one space changes nothing. *)
Lemma spaces_isolated u :
  replace_all m_spaces 0 (join (str "_") (split_chars u))
  = join (str "_") (split_chars u).
Proof.
  induction u as [|c [|d u] IH]; try reflexivity.
  - destruct (N.eqb 32 c) eqn:E.
    + apply N.eqb_eq in E. subst c. reflexivity.
    + apply m_spaces_not_space, E.
  - rewrite split_chars_cons, m_spaces_single.
    rewrite m_spaces_not_space by reflexivity. rewrite IH. reflexivity.
Qed.

Lemma separate_unfolded s :
  separate s = join (str "_") (split_chars (toLowerCase (trim s))).
Proof.
  unfold separate. rewrite lower_join_split. apply spaces_isolated.
Qed.

(** The replacement of runs of spaces by one space, in the first
    statement of [eval], never changes the string: it comes after the
    code units have been joined by [_], when no two spaces are adjacent.
    So every space of the input is a part of its own. *)
Theorem spaces_are_not_collapsed (s : jstring) :
  separate s = toLowerCase (join (str "_") (split_chars (trim s)))
  /\ tokenize (str "2  3") = [str "2"; str " "; str " "; str "3"].
Proof.
  split; [| vm_compute; reflexivity].
  unfold separate. rewrite lower_join_split. apply spaces_isolated.
Qed.
(** ** Numeric literals *)

Lemma pair_induction (P : list jstring -> Prop) :
  P [] -> (forall r, P [r]) ->
  (forall r1 r2 rest, P rest -> P (r1 :: r2 :: rest)) ->
  forall l, P l.
Proof.
  intros H0 H1 H2 l.
  assert (H : P l /\ forall r, P (r :: l)).
  { induction l as [|x l [IH1 IH2]]; [split; auto |].
    split; [apply IH2 | intros r; apply H2, IH1]. }
  exact (proj1 H).
Qed.

Lemma digit_range c : is_digit c = true -> (48 <= c <= 57)%N.
Proof.
  unfold is_digit. intros H. apply andb_true_iff in H. destruct H as [H1 H2].
  apply N.leb_le in H1, H2. lia.
Qed.

Lemma literal_char_cases c :
  literal_char c = true -> (48 <= c <= 57)%N \/ c = 44%N \/ c = 46%N.
Proof.
  unfold literal_char. rewrite !orb_true_iff, !N.eqb_eq.
  intros [[H | H] | H]; auto using digit_range.
Qed.

Lemma literal_char_not_white c : literal_char c = true -> is_white c = false.
Proof.
  intros H. apply literal_char_cases in H.
  unfold is_white. cbn [existsb].
  repeat match goal with
         | |- context [N.eqb ?a ?b] => destruct (N.eqb_spec a b); [lia |]
         end.
  reflexivity.
Qed.

Lemma literal_char_lower c : literal_char c = true -> lower c = c.
Proof.
  intros H. apply literal_char_cases in H. unfold lower.
  destruct (N.leb_spec 65 c); simpl; [lia |].
  destruct (N.eqb_spec c 928); [lia | reflexivity].
Qed.

Lemma digit_is_not c k :
  is_digit c = true -> is_digit k = false -> N.eqb c k = false.
Proof.
  intros Hc Hk. destruct (N.eqb_spec c k) as [-> | _]; congruence.
Qed.

Lemma all_digits_digits_only r : all_digits r = true -> digits_only r = true.
Proof. unfold all_digits. intros H. apply andb_true_iff in H. apply H. Qed.

Lemma all_digits_starts r : all_digits r = true -> starts_with_digit r = true.
Proof.
  unfold all_digits. destruct r as [|c r]; [discriminate |]. simpl.
  intros H. apply andb_true_iff in H. apply H.
Qed.

Lemma all_digits_app r1 r2 :
  all_digits r1 = true -> all_digits r2 = true -> all_digits (r1 ++ r2) = true.
Proof.
  unfold all_digits. intros H1 H2.
  apply andb_true_iff in H1, H2. destruct H1 as [N1 D1], H2 as [N2 D2].
  rewrite forallb_app, D1, D2. destruct r1; [discriminate | reflexivity].
Qed.

Lemma digits_only_literal s : digits_only s = true -> literal_chars s = true.
Proof.
  unfold digits_only, literal_chars. intros H.
  apply forallb_forall. intros c Hc.
  unfold literal_char. rewrite (proj1 (forallb_forall _ _) H c Hc).
  reflexivity.
Qed.

(** *** Trimming and lower-casing leave a literal as it is *)

Lemma literal_chars_rev s : literal_chars (rev s) = literal_chars s.
Proof.
  unfold literal_chars. induction s as [|c s IH]; simpl; [reflexivity |].
  rewrite forallb_app, IH. simpl. rewrite andb_true_r. apply andb_comm.
Qed.

Lemma trim_start_literal s : literal_chars s = true -> trim_start s = s.
Proof.
  destruct s as [|c s]; simpl; [reflexivity |]. intros H.
  apply andb_true_iff in H. destruct H as [H _].
  rewrite (literal_char_not_white c H). reflexivity.
Qed.

Lemma trim_literal s : literal_chars s = true -> trim s = s.
Proof.
  intros H. unfold trim. rewrite (trim_start_literal s H).
  rewrite trim_start_literal by (rewrite literal_chars_rev; exact H).
  apply rev_involutive.
Qed.

Lemma toLowerCase_literal s : literal_chars s = true -> toLowerCase s = s.
Proof.
  induction s as [|c s IH]; simpl; [reflexivity |]. intros H.
  apply andb_true_iff in H. destruct H as [Hc H].
  rewrite (literal_char_lower c Hc). fold (toLowerCase s). rewrite (IH H).
  reflexivity.
Qed.

Lemma separate_literal s :
  literal_chars s = true -> separate s = join (str "_") (split_chars s).
Proof.
  intros H. rewrite separate_unfolded, (trim_literal s H).
  rewrite (toLowerCase_literal s H). reflexivity.
Qed.

Lemma join_cons sep p q l :
  join sep (p :: q :: l) = p ++ sep ++ join sep (q :: l).
Proof. reflexivity. Qed.

Lemma split_chars_app a rest :
  a <> [] -> rest <> [] ->
  join (str "_") (split_chars (a ++ rest))
  = join (str "_") (split_chars a) ++ 95%N :: join (str "_") (split_chars rest).
Proof.
  intros Ha Hr. induction a as [|c [|d a] IH]; [contradiction | |].
  - destruct rest as [|e rest]; [contradiction | reflexivity].
  - change ((c :: d :: a) ++ rest) with (c :: d :: (a ++ rest)).
    rewrite !split_chars_cons.
    change (d :: a ++ rest) with ((d :: a) ++ rest).
    rewrite IH by discriminate. reflexivity.
Qed.

Lemma split_chars_runs s :
  digits_only s = true ->
  forallb all_digits (split_chars s) = true /\ concat (split_chars s) = s.
Proof.
  induction s as [|c s IH]; simpl; [auto |]. intros H.
  apply andb_true_iff in H. destruct H as [Hc H].
  destruct (IH H) as [IH1 IH2].
  fold (split_chars s). rewrite IH1, IH2. unfold all_digits. simpl.
  rewrite Hc. auto.
Qed.

(** *** The passes of the loop that merges digits *)

Lemma span_digits r (tail : jstring) :
  digits_only r = true -> no_digit_ahead tail = true ->
  span is_digit (r ++ tail) = (r, tail).
Proof.
  intros Hr Ht. induction r as [|c r IH]; simpl.
  - destruct tail as [|c t]; [reflexivity |]. simpl in Ht.
    apply negb_true_iff in Ht. simpl. rewrite Ht. reflexivity.
  - simpl in Hr. apply andb_true_iff in Hr. destruct Hr as [Hc Hr].
    rewrite Hc, (IH Hr). reflexivity.
Qed.

Lemma replace_all_skip m pre rest :
  replace_all m (length pre) (pre ++ rest) = replace_all m 0 rest.
Proof.
  induction pre as [|c pre IH]; simpl; [| exact IH].
  destruct rest; reflexivity.
Qed.

(** A prefix at none of whose positions the pattern matches is kept. *)
Lemma replace_all_prefix m pre tail :
  (forall n, (n < length pre)%nat -> m (skipn n pre ++ tail) = None) ->
  replace_all m 0 (pre ++ tail) = pre ++ replace_all m 0 tail.
Proof.
  induction pre as [|c pre IH]; intros H; [reflexivity |].
  change ((c :: pre) ++ tail) with (c :: pre ++ tail).
  cbn [replace_all].
  rewrite (H 0%nat (Nat.lt_0_succ _) : m (c :: pre ++ tail) = None).
  change ((c :: pre) ++ replace_all m 0 tail)
    with (c :: pre ++ replace_all m 0 tail).
  f_equal. apply IH. intros n Hn. apply (H (S n)). simpl. lia.
Qed.

Lemma digits_only_skipn n s :
  digits_only s = true -> digits_only (skipn n s) = true.
Proof.
  revert s; induction n as [|n IH]; intros [|c s] H; simpl; auto.
  simpl in H. apply andb_true_iff in H. apply IH, H.
Qed.

Lemma literal_chars_skipn n s :
  literal_chars s = true -> literal_chars (skipn n s) = true.
Proof.
  revert s; induction n as [|n IH]; intros [|c s] H; simpl; auto.
  simpl in H. apply andb_true_iff in H. apply IH, H.
Qed.

Lemma replace_all_literal m s :
  (forall t, literal_chars t = true -> m t = None) ->
  literal_chars s = true -> replace_all m 0 s = s.
Proof.
  intros Hm Hs. rewrite <- (app_nil_r s) at 1.
  rewrite replace_all_prefix; [apply app_nil_r |].
  intros n _. rewrite app_nil_r. apply Hm, literal_chars_skipn, Hs.
Qed.

(** The merging pattern needs a digit after the underscore. *)
Lemma m_digits_digits_blocked r (tail : jstring) :
  digits_only r = true -> no_digit_ahead tail = true ->
  (tail = [] \/ exists t, tail = 95%N :: t /\ no_digit_ahead t = true) ->
  m_digits_digits (r ++ tail) = None.
Proof.
  intros Hr Ht Htail. unfold m_digits_digits.
  rewrite (span_digits r tail Hr Ht).
  destruct r as [|c r]; [reflexivity |].
  destruct Htail as [-> | (t & -> & Hn)]; [reflexivity |].
  change (N.eqb 95 95) with true. cbv iota.
  rewrite (span_digits [] t eq_refl Hn : span is_digit t = ([], t)).
  reflexivity.
Qed.

Lemma pass_blocked r (tail : jstring) :
  digits_only r = true -> no_digit_ahead tail = true ->
  (tail = [] \/ exists t, tail = 95%N :: t /\ no_digit_ahead t = true) ->
  replace_all m_digits_digits 0 (r ++ tail)
  = r ++ replace_all m_digits_digits 0 tail.
Proof.
  intros Hr Ht Htail. apply replace_all_prefix. intros n _.
  apply m_digits_digits_blocked; auto using digits_only_skipn.
Qed.

Lemma pass_pair r1 r2 (tail : jstring) :
  all_digits r1 = true -> all_digits r2 = true ->
  no_digit_ahead tail = true ->
  replace_all m_digits_digits 0 (r1 ++ str "_" ++ r2 ++ tail)
  = r1 ++ r2 ++ replace_all m_digits_digits 0 tail.
Proof.
  unfold all_digits. intros H1 H2 Ht.
  apply andb_true_iff in H1, H2. destruct H1 as [N1 D1], H2 as [N2 D2].
  destruct r1 as [|c r1]; [discriminate |].
  destruct r2 as [|d r2]; [discriminate |].
  assert (Hm : m_digits_digits ((c :: r1) ++ str "_" ++ (d :: r2) ++ tail)
               = Some ((c :: r1) ++ d :: r2,
                       (length (c :: r1) + 1 + length (d :: r2))%nat)).
  { unfold m_digits_digits.
    change (str "_" ++ (d :: r2) ++ tail) with (95%N :: (d :: r2) ++ tail).
    rewrite (span_digits (c :: r1) (95%N :: (d :: r2) ++ tail) D1 eq_refl).
    change (N.eqb 95 95) with true. cbv iota.
    rewrite (span_digits (d :: r2) tail D2 Ht). reflexivity. }
  change ((c :: r1) ++ str "_" ++ (d :: r2) ++ tail)
    with (c :: r1 ++ str "_" ++ (d :: r2) ++ tail) in Hm |- *.
  cbn [replace_all]. rewrite Hm.
  replace (r1 ++ str "_" ++ (d :: r2) ++ tail)
    with ((r1 ++ 95%N :: d :: r2) ++ tail)
    by (rewrite <- app_assoc; reflexivity).
  replace (Nat.pred (length (c :: r1) + 1 + length (d :: r2)))
    with (length (r1 ++ 95%N :: d :: r2))
    by (rewrite length_app; simpl; lia).
  rewrite replace_all_skip, <- app_assoc. reflexivity.
Qed.

Lemma pair_up_cons r1 r2 rest :
  pair_up (r1 :: r2 :: rest) = (r1 ++ r2) :: pair_up rest.
Proof. reflexivity. Qed.

(** One pass merges the runs two by two; [tail] is what follows them. *)
Lemma pass_runs runs : forall tail : jstring,
  forallb all_digits runs = true -> runs <> [] ->
  (tail = [] \/ exists t, tail = 95%N :: t /\ no_digit_ahead t = true) ->
  replace_all m_digits_digits 0 (join (str "_") runs ++ tail)
  = join (str "_") (pair_up runs) ++ replace_all m_digits_digits 0 tail.
Proof.
  induction runs as [| r | r1 r2 rest IH] using pair_induction;
    intros tail H Hne Htail.
  - contradiction.
  - simpl in H. apply andb_true_iff in H. destruct H as [H _].
    apply pass_blocked; [apply all_digits_digits_only, H | | exact Htail].
    destruct Htail as [-> | (t & -> & _)]; reflexivity.
  - cbn [forallb] in H. apply andb_true_iff in H. destruct H as [H1 H].
    apply andb_true_iff in H. destruct H as [H2 H].
    rewrite pair_up_cons.
    assert (Ht : no_digit_ahead tail = true)
      by (destruct Htail as [-> | (t & -> & _)]; reflexivity).
    destruct rest as [|r3 rest].
    + cbn [join pair_up]. rewrite <- !app_assoc.
      apply (pass_pair r1 r2 tail H1 H2 Ht).
    + rewrite join_cons, join_cons, <- !app_assoc.
      rewrite (pass_pair r1 r2 (str "_" ++ join (str "_") (r3 :: rest) ++ tail)
                 H1 H2 eq_refl).
      change (str "_" ++ join (str "_") (r3 :: rest) ++ tail)
        with (95%N :: join (str "_") (r3 :: rest) ++ tail).
      cbn [replace_all].
      change (m_digits_digits (95%N :: join (str "_") (r3 :: rest) ++ tail))
        with (@None (jstring * nat)).
      cbv iota. rewrite (IH tail H) by (discriminate || exact Htail).
      destruct (pair_up (r3 :: rest)) as [|q l] eqn:E;
        [destruct rest; discriminate E |].
      rewrite join_cons, <- !app_assoc. reflexivity.
Qed.

Lemma length_join runs :
  (length (join (str "_") runs) + 1
   = length (concat runs) + Nat.max 1 (length runs))%nat.
Proof.
  induction runs as [|p [|q l] IH].
  - reflexivity.
  - simpl. rewrite app_nil_r. reflexivity.
  - rewrite join_cons. cbn [concat]. rewrite !length_app.
    cbn [concat] in IH. rewrite length_app in IH.
    change (length (p :: q :: l)) with (S (length (q :: l))).
    change (length (q :: l)) with (S (length l)) in IH |- *.
    simpl (length (str "_")). lia.
Qed.

Lemma pair_up_facts runs :
  concat (pair_up runs) = concat runs
  /\ (forallb all_digits runs = true -> forallb all_digits (pair_up runs) = true)
  /\ (2 * length (pair_up runs) <= length runs + 1)%nat
  /\ (2 <= length runs -> length (pair_up runs) < length runs)%nat
  /\ (runs <> [] -> pair_up runs <> []).
Proof.
  induction runs as [| r | r1 r2 rest (IH1 & IH2 & IH3 & IH4 & IH5)]
    using pair_induction.
  - simpl. repeat split; auto; lia.
  - simpl. repeat split; auto; lia.
  - rewrite pair_up_cons. repeat split.
    + cbn [concat]. rewrite IH1, app_assoc. reflexivity.
    + cbn [forallb]. intros H.
      apply andb_true_iff in H. destruct H as [H1 H].
      apply andb_true_iff in H. destruct H as [H2 H].
      rewrite (all_digits_app r1 r2 H1 H2), (IH2 H). reflexivity.
    + simpl. lia.
    + intros _. simpl. lia.
    + discriminate.
Qed.

Lemma join_one_run runs :
  (length runs <= 1)%nat -> join (str "_") runs = concat runs.
Proof.
  destruct runs as [|r [|r' rest]]; simpl; intros H;
    [reflexivity | rewrite app_nil_r; reflexivity | lia].
Qed.

Lemma join_two_runs runs :
  (length runs <= 2)%nat -> join (str "_") (pair_up runs) = concat runs.
Proof.
  destruct runs as [|r1 [|r2 [|r3 rest]]]; simpl; intros H;
    rewrite ?app_nil_r; try reflexivity; lia.
Qed.

(** The loop merges the runs into one, given fuel for its passes. *)
Lemma merge_runs fuel : forall runs,
  forallb all_digits runs = true -> runs <> [] ->
  (length runs <= fuel + 2)%nat ->
  merge_digits fuel (join (str "_") runs) = concat runs.
Proof.
  induction fuel as [|fuel IH]; intros runs H Hne Hlen;
    cbn [merge_digits]; rewrite <- (app_nil_r (join (str "_") runs));
    rewrite (pass_runs runs [] H Hne (or_introl eq_refl));
    cbn [replace_all]; rewrite !app_nil_r.
  - apply join_two_runs. lia.
  - destruct (pair_up_facts runs) as (Hc & Hd & Hl & Hlt & Hn).
    destruct (length (join (str "_") (pair_up runs))
              <? length (join (str "_") runs))%nat eqn:E.
    + rewrite (IH (pair_up runs) (Hd H) (Hn Hne)); [exact Hc | lia].
    + apply Nat.ltb_ge in E.
      pose proof (length_join runs) as L1.
      pose proof (length_join (pair_up runs)) as L2.
      rewrite Hc in L2.
      assert (Hone : (length runs <= 1)%nat) by lia.
      rewrite <- Hc. apply join_one_run. lia.
Qed.

(** The same for the two groups of runs around a point or a comma. *)
Lemma pass_separated A p B :
  forallb all_digits A = true -> A <> [] ->
  forallb all_digits B = true -> B <> [] ->
  is_digit p = false ->
  replace_all m_digits_digits 0 (separated A p B)
  = separated (pair_up A) p (pair_up B).
Proof.
  intros HA NA HB NB Hp. unfold separated.
  rewrite (pass_runs A _ HA NA).
  - cbn [replace_all].
    change (m_digits_digits (95%N :: p :: 95%N :: join (str "_") B))
      with (@None (jstring * nat)). cbv iota.
    assert (Hm : m_digits_digits (p :: 95%N :: join (str "_") B) = None).
    { unfold m_digits_digits. cbn [span]. rewrite Hp. reflexivity. }
    rewrite Hm.
    change (m_digits_digits (95%N :: join (str "_") B))
      with (@None (jstring * nat)). cbv iota.
    rewrite <- (app_nil_r (join (str "_") B)).
    rewrite (pass_runs B [] HB NB (or_introl eq_refl)).
    cbn [replace_all]. rewrite !app_nil_r. reflexivity.
  - right. eexists. split; [reflexivity |]. simpl. rewrite Hp. reflexivity.
Qed.

Lemma length_separated A p B :
  (length (separated A p B) + 2
   = length (concat A) + Nat.max 1 (length A)
     + length (concat B) + Nat.max 1 (length B) + 3)%nat.
Proof.
  unfold separated. rewrite length_app. cbn [length].
  pose proof (length_join A). pose proof (length_join B). lia.
Qed.

Lemma merge_separated fuel : forall A B p,
  forallb all_digits A = true -> A <> [] ->
  forallb all_digits B = true -> B <> [] ->
  is_digit p = false ->
  (length A <= fuel + 2)%nat -> (length B <= fuel + 2)%nat ->
  merge_digits fuel (separated A p B)
  = concat A ++ 95%N :: p :: 95%N :: concat B.
Proof.
  induction fuel as [|fuel IH]; intros A B p HA NA HB NB Hp LA LB;
    cbn [merge_digits]; rewrite (pass_separated A p B HA NA HB NB Hp).
  - unfold separated. rewrite !join_two_runs by lia. reflexivity.
  - destruct (pair_up_facts A) as (CA & DA & L2A & LtA & NeA).
    destruct (pair_up_facts B) as (CB & DB & L2B & LtB & NeB).
    destruct (length (separated (pair_up A) p (pair_up B))
              <? length (separated A p B))%nat eqn:E.
    + rewrite (IH (pair_up A) (pair_up B) p); auto; try lia.
      rewrite CA, CB. reflexivity.
    + apply Nat.ltb_ge in E.
      pose proof (length_separated A p B) as L1.
      pose proof (length_separated (pair_up A) p (pair_up B)) as L2.
      rewrite CA, CB in L2.
      assert (HlA : (length A <= 1)%nat) by lia.
      assert (HlB : (length B <= 1)%nat) by lia.
      unfold separated. rewrite <- CA, <- CB.
      rewrite !join_one_run by lia. reflexivity.
Qed.

(** *** The replacements leave a literal as it is *)

Lemma span_digits_all r : digits_only r = true -> span is_digit r = (r, []).
Proof.
  intros H. pose proof (span_digits r [] H eq_refl) as E.
  rewrite app_nil_r in E. exact E.
Qed.

Lemma replace_all_skip_all m (s : jstring) : replace_all m (length s) s = [].
Proof.
  pose proof (replace_all_skip m s []) as E. rewrite app_nil_r in E. exact E.
Qed.

Lemma m_decimal_run t : digits_only t = true -> m_decimal t = None.
Proof.
  intros H. unfold m_decimal. rewrite (span_digits_all t H).
  destruct t; reflexivity.
Qed.

Lemma decimal_digits ds :
  digits_only ds = true -> replace_all m_decimal 0 ds = ds.
Proof.
  intros H. rewrite <- (app_nil_r ds) at 1.
  rewrite replace_all_prefix; [apply app_nil_r |].
  intros n _. rewrite app_nil_r. apply m_decimal_run, digits_only_skipn, H.
Qed.

(** Two digit runs around a point or a comma become a decimal literal. *)
Lemma decimal_separated (a : jstring) (p : code_unit) (b : jstring) :
  all_digits a = true -> all_digits b = true ->
  (N.eqb p 44 || N.eqb p 46)%bool = true ->
  replace_all m_decimal 0 (a ++ 95%N :: p :: 95%N :: b) = a ++ 46%N :: b.
Proof.
  unfold all_digits. intros Ha Hb Hp.
  apply andb_true_iff in Ha, Hb. destruct Ha as [Na Da], Hb as [Nb Db].
  destruct a as [|c a]; [discriminate |].
  destruct b as [|d b]; [discriminate |].
  assert (Hm : m_decimal ((c :: a) ++ 95%N :: p :: 95%N :: d :: b)
               = Some ((c :: a) ++ [46%N] ++ d :: b,
                       (length (c :: a) + 3 + length (d :: b))%nat)).
  { unfold m_decimal.
    rewrite (span_digits (c :: a) (95%N :: p :: 95%N :: d :: b) Da eq_refl).
    change (N.eqb 95 95) with true. rewrite Hp. cbn [andb].
    rewrite (span_digits_all (d :: b) Db). reflexivity. }
  change ((c :: a) ++ 95%N :: p :: 95%N :: d :: b)
    with (c :: a ++ 95%N :: p :: 95%N :: d :: b) in Hm |- *.
  cbn [replace_all]. rewrite Hm.
  replace (Nat.pred (length (c :: a) + 3 + length (d :: b)))
    with (length (a ++ 95%N :: p :: 95%N :: d :: b))
    by (rewrite length_app; simpl; lia).
  rewrite replace_all_skip_all, app_nil_r. reflexivity.
Qed.

Lemma m_lit_literal c pat repl t :
  literal_char c = false -> literal_chars t = true ->
  m_lit (c :: pat) repl t = None.
Proof.
  intros Hc Ht. unfold m_lit. destruct t as [|d t]; simpl; [reflexivity |].
  simpl in Ht. apply andb_true_iff in Ht. destruct Ht as [Hd _].
  destruct (N.eqb_spec c d) as [-> | _]; [congruence | reflexivity].
Qed.

Lemma m_or_none a b t : a t = None -> b t = None -> m_or a b t = None.
Proof. intros Ha Hb. unfold m_or. rewrite Ha. exact Hb. Qed.

Lemma replacements_literal s s1 :
  replace_all m_decimal 0 s = s1 -> literal_chars s1 = true ->
  replacements s = s1.
Proof.
  intros E H. unfold replacements. rewrite E.
  repeat (rewrite (replace_all_literal _ s1) at 1;
          [| intros t Ht;
             first [ apply m_lit_literal; [reflexivity | exact Ht]
                   | apply m_or_none; apply m_lit_literal;
                     first [reflexivity | exact Ht] ]
           | exact H ]).
  reflexivity.
Qed.

Lemma split_on_literal s : literal_chars s = true -> split_on 95%N s = [s].
Proof.
  induction s as [|c s IH]; simpl; [reflexivity |]. intros H.
  apply andb_true_iff in H. destruct H as [Hc H].
  rewrite (IH H).
  destruct (N.eqb_spec c 95) as [-> | _]; [discriminate Hc | reflexivity].
Qed.

Lemma literal_chars_around (a : jstring) (p : code_unit) (b : jstring) :
  digits_only a = true -> literal_char p = true -> digits_only b = true ->
  literal_chars (a ++ p :: b) = true.
Proof.
  intros Ha Hp Hb. unfold literal_chars. rewrite forallb_app. cbn [forallb].
  fold (literal_chars a). fold (literal_chars b).
  rewrite (digits_only_literal a Ha), (digits_only_literal b Hb), Hp.
  reflexivity.
Qed.

Lemma tokenize_digits ds : all_digits ds = true -> tokenize ds = [ds].
Proof.
  intros H. pose proof (all_digits_digits_only ds H) as Hd.
  pose proof (digits_only_literal ds Hd) as Hl.
  destruct (split_chars_runs ds Hd) as [Hruns Hcat].
  unfold tokenize. rewrite (separate_literal ds Hl).
  rewrite (merge_runs _ (split_chars ds) Hruns).
  - rewrite Hcat, (replacements_literal ds ds (decimal_digits ds Hd) Hl).
    rewrite (split_on_literal ds Hl).
    destruct ds; [discriminate H | reflexivity].
  - destruct ds; [discriminate H | discriminate].
  - pose proof (length_join (split_chars ds)) as L. lia.
Qed.

Lemma tokenize_decimal (a : jstring) (p : code_unit) (b : jstring) :
  all_digits a = true -> all_digits b = true ->
  (N.eqb p 44 || N.eqb p 46)%bool = true ->
  tokenize (a ++ p :: b) = [a ++ 46%N :: b].
Proof.
  intros Ha Hb Hp.
  pose proof (all_digits_digits_only a Ha) as Da.
  pose proof (all_digits_digits_only b Hb) as Db.
  assert (Lp : literal_char p = true).
  { unfold literal_char. rewrite <- orb_assoc, Hp. apply orb_true_r. }
  assert (Dp : is_digit p = false).
  { apply orb_true_iff in Hp. rewrite !N.eqb_eq in Hp.
    destruct Hp as [-> | ->]; reflexivity. }
  pose proof (literal_chars_around a p b Da Lp Db) as Hl.
  pose proof (literal_chars_around a 46%N b Da eq_refl Db) as Hl1.
  destruct (split_chars_runs a Da) as [RA CA].
  destruct (split_chars_runs b Db) as [RB CB].
  assert (NA : split_chars a <> []) by (destruct a; [discriminate Ha | discriminate]).
  assert (NB : split_chars b <> []) by (destruct b; [discriminate Hb | discriminate]).
  assert (Hsep : separate (a ++ p :: b)
                 = separated (split_chars a) p (split_chars b)).
  { rewrite separate_literal by exact Hl.
    rewrite split_chars_app by (destruct a; [discriminate Ha | discriminate]).
    destruct b as [|d b]; [discriminate Hb |].
    rewrite split_chars_cons. reflexivity. }
  unfold tokenize. rewrite Hsep.
  rewrite (merge_separated _ (split_chars a) (split_chars b) p RA NA RB NB Dp).
  - rewrite CA, CB.
    rewrite (replacements_literal _ _ (decimal_separated a p b Ha Hb Hp) Hl1).
    rewrite split_on_literal by exact Hl1.
    destruct a; [discriminate Ha | reflexivity].
  - pose proof (length_separated (split_chars a) p (split_chars b)). lia.
  - pose proof (length_separated (split_chars a) p (split_chars b)). lia.
Qed.

(** *** The value of a literal *)

Lemma starts_with_digit_is_not tok w :
  starts_with_digit tok = true -> no_digit_ahead w = true ->
  eqb tok w = false.
Proof.
  destruct tok as [|c tok]; [discriminate |]. simpl. intros Hc Hw.
  destruct w as [|k w]; [reflexivity |].
  simpl in Hw. apply negb_true_iff in Hw.
  simpl. rewrite (digit_is_not c k Hc Hw). reflexivity.
Qed.

Lemma literal_char_is_not p k :
  literal_char p = true -> literal_char k = false -> N.eqb p k = false.
Proof.
  intros Hp Hk. destruct (N.eqb_spec p k) as [-> | _]; congruence.
Qed.

Lemma StringToNumber_unsigned s :
  literal_chars s = true -> starts_with_digit s = true ->
  StringToNumber s = StrUnsignedDecimalLiteral false s.
Proof.
  intros Hl Hs. unfold StringToNumber. rewrite (trim_literal s Hl).
  destruct s as [|c t]; [discriminate Hs |]. simpl in Hs.
  assert (Hpre :
    match t with
    | p :: r =>
        if N.eqb c 48 then
          if (N.eqb p 120 || N.eqb p 88)%bool then Some (16%Z, r)
          else if (N.eqb p 111 || N.eqb p 79)%bool then Some (8%Z, r)
          else if (N.eqb p 98 || N.eqb p 66)%bool then Some (2%Z, r)
          else None
        else None
    | [] => None
    end = None).
  { destruct t as [|p r]; [reflexivity |].
    simpl in Hl. apply andb_true_iff in Hl. destruct Hl as [_ Hl].
    apply andb_true_iff in Hl. destruct Hl as [Hp _].
    rewrite !(literal_char_is_not p _ Hp) by reflexivity.
    destruct (N.eqb c 48); reflexivity. }
  rewrite Hpre. rewrite !(digit_is_not c _ Hs) by reflexivity. reflexivity.
Qed.

Lemma parse_int_digits s : forall acc,
  digits_only s = true -> exists m, parse_int 10 acc s = Some m.
Proof.
  induction s as [|c s IH]; intros acc H; simpl; [eauto |].
  simpl in H. apply andb_true_iff in H. destruct H as [Hc H].
  apply digit_range in Hc.
  assert (Hd : digit_val 10 c = Some (Z.of_N c - 48)%Z).
  { unfold digit_val.
    destruct (Z.leb_spec 48 (Z.of_N c)), (Z.leb_spec (Z.of_N c) 57);
      simpl; try lia.
    destruct (Z.ltb_spec (Z.of_N c - 48) 10); [reflexivity | lia]. }
  rewrite Hd. apply IH, H.
Qed.

Lemma digits_only_app a b :
  digits_only a = true -> digits_only b = true -> digits_only (a ++ b) = true.
Proof.
  unfold digits_only. intros Ha Hb. rewrite forallb_app, Ha, Hb. reflexivity.
Qed.

Lemma StringToNumber_digits ds :
  all_digits ds = true -> isNaN (StringToNumber ds) = false.
Proof.
  intros H. pose proof (all_digits_digits_only ds H) as Hd.
  rewrite (StringToNumber_unsigned ds (digits_only_literal ds Hd)
             (all_digits_starts ds H)).
  unfold StrUnsignedDecimalLiteral.
  rewrite (starts_with_digit_is_not ds _ (all_digits_starts ds H))
    by reflexivity.
  rewrite (span_digits_all ds Hd).
  replace (nonempty ds) with true by (destruct ds; [discriminate H | reflexivity]).
  cbn [orb]. rewrite app_nil_r.
  destruct (parse_int_digits ds 0 Hd) as [m ->].
  apply of_decimal_not_nan.
Qed.

Lemma StringToNumber_decimal (a b : jstring) :
  all_digits a = true -> all_digits b = true ->
  isNaN (StringToNumber (a ++ 46%N :: b)) = false.
Proof.
  intros Ha Hb.
  pose proof (all_digits_digits_only a Ha) as Da.
  pose proof (all_digits_digits_only b Hb) as Db.
  assert (Hs : starts_with_digit (a ++ 46%N :: b) = true).
  { pose proof (all_digits_starts a Ha) as S.
    destruct a; [discriminate S | exact S]. }
  rewrite StringToNumber_unsigned
    by (exact Hs || exact (literal_chars_around a 46%N b Da eq_refl Db)).
  unfold StrUnsignedDecimalLiteral.
  rewrite starts_with_digit_is_not by (exact Hs || reflexivity).
  rewrite span_digits by (exact Da || reflexivity).
  change (N.eqb 46 46) with true. cbv iota.
  rewrite (span_digits_all b Db).
  replace (nonempty a) with true by (destruct a; [discriminate Ha | reflexivity]).
  cbn [orb].
  destruct (parse_int_digits (a ++ b) 0 (digits_only_app a b Da Db)) as [m ->].
  apply of_decimal_not_nan.
Qed.

(** The levels on a single part that is a number. *)
Lemma levels_on_a_number M tok fuel :
  starts_with_digit tok = true -> isNaN (StringToNumber tok) = false ->
  eval__read_bracket_contents M (5 + fuel) [tok]
  = Ok (mk (StringToNumber tok) 0, []).
Proof.
  intros H Hn.
  assert (H1 : skip_spaces [tok] = [tok]).
  { cbn [skip_spaces].
    rewrite (starts_with_digit_is_not tok _ H) by reflexivity. reflexivity. }
  assert (He : eval__read_expression M (S fuel) [tok]
               = Ok (mk (StringToNumber tok) 0, [])).
  { cbn [eval__read_expression]. rewrite H1, Hn. cbn [read_literal].
    rewrite (new_number _ _ Hn). reflexivity. }
  assert (Hx : eval__read_exponentiation M (S (S fuel)) [tok]
               = Ok (mk (StringToNumber tok) 0, [])).
  { cbn [eval__read_exponentiation]. rewrite He. reflexivity. }
  assert (Hm : eval__read_multiplication M (S (S (S fuel))) [tok]
               = Ok (mk (StringToNumber tok) 0, [])).
  { cbn [eval__read_multiplication]. rewrite Hx. reflexivity. }
  assert (Ha : eval__read_addition M (S (S (S (S fuel)))) [tok]
               = Ok (mk (StringToNumber tok) 0, [])).
  { cbn [eval__read_addition]. rewrite H1.
    rewrite !(starts_with_digit_is_not tok _ H) by reflexivity.
    rewrite Hm. reflexivity. }
  assert (H2 : skip_spaces_plus [tok] = [tok]
               /\ at_closing [tok] = false /\ unshift_zero [tok] = [tok]).
  { cbn [skip_spaces_plus at_closing unshift_zero].
    rewrite !(starts_with_digit_is_not tok _ H) by reflexivity. auto. }
  destruct H2 as (H2 & H3 & H4).
  change (5 + fuel)%nat with (S (S (S (S (S fuel))))).
  cbn [eval__read_bracket_contents]. rewrite H2, H3, H4, Ha. reflexivity.
Qed.

Lemma eval_of_a_number M s tok :
  tokenize s = [tok] ->
  starts_with_digit tok = true -> isNaN (StringToNumber tok) = false ->
  eval_gives M (VString s) (Ok (mk (StringToNumber tok) 0)).
Proof.
  intros Ht H Hn. exists 6%nat. intros fuel Hfuel.
  replace fuel with (S (5 + (fuel - 6)))%nat by lia.
  cbn [eval String_]. rewrite Ht, (levels_on_a_number M tok _ H Hn).
  reflexivity.
Qed.

(** A run of digits of any length is one part, as the loop that merges
    digits goes on until nothing is left to merge; its value as a number
    is never NaN, and [eval] returns it with a zero imaginary part. *)
Theorem eval_of_a_digit_string (M : MathLib) (ds : jstring) :
  all_digits ds = true ->
  tokenize ds = [ds]
  /\ isNaN (StringToNumber ds) = false
  /\ eval_gives M (VString ds) (Ok (mk (StringToNumber ds) 0)).
Proof.
  intros H. pose proof (tokenize_digits ds H) as Ht.
  pose proof (StringToNumber_digits ds H) as Hn.
  split; [exact Ht |]. split; [exact Hn |].
  apply (eval_of_a_number M ds ds Ht (all_digits_starts ds H) Hn).
Qed.

(** ["2024"]. *)
Lemma eval_of_a_digit_string_witness :
  all_digits (str "2024") = true
  /\ tokenize (str "2024") = [str "2024"]
  /\ isNaN (StringToNumber (str "2024")) = false
  /\ eval_gives sample_math (VString (str "2024"))
       (Ok (mk (StringToNumber (str "2024")) 0)).
Proof.
  split; [reflexivity |].
  apply (eval_of_a_digit_string sample_math (str "2024")). reflexivity.
Defined.

(** Two runs of digits around a point or a comma are one part, the
    decimal literal with a point: the comma is a decimal separator.  Its
    value as a number is never NaN, and [eval] returns it with a zero
    imaginary part. *)
Theorem eval_of_a_decimal_literal (M : MathLib) (a b : jstring)
    (p : code_unit) :
  all_digits a = true -> all_digits b = true ->
  (N.eqb p 44 || N.eqb p 46)%bool = true ->
  tokenize (a ++ p :: b) = [a ++ 46%N :: b]
  /\ isNaN (StringToNumber (a ++ 46%N :: b)) = false
  /\ eval_gives M (VString (a ++ p :: b))
       (Ok (mk (StringToNumber (a ++ 46%N :: b)) 0)).
Proof.
  intros Ha Hb Hp. pose proof (tokenize_decimal a p b Ha Hb Hp) as Ht.
  pose proof (StringToNumber_decimal a b Ha Hb) as Hn.
  split; [exact Ht |]. split; [exact Hn |].
  apply (eval_of_a_number M _ _ Ht); [| exact Hn].
  pose proof (all_digits_starts a Ha) as S.
  destruct a; [discriminate S | exact S].
Qed.

(** ["12,5"] is twelve and a half. *)
Lemma eval_of_a_decimal_literal_witness :
  all_digits (str "12") = true /\ all_digits (str "5") = true
  /\ (N.eqb 44 44 || N.eqb 44 46)%bool = true
  /\ tokenize (str "12" ++ 44%N :: str "5") = [str "12" ++ 46%N :: str "5"]
  /\ isNaN (StringToNumber (str "12" ++ 46%N :: str "5")) = false
  /\ eval_gives sample_math (VString (str "12" ++ 44%N :: str "5"))
       (Ok (mk (StringToNumber (str "12" ++ 46%N :: str "5")) 0)).
Proof.
  split; [reflexivity |]. split; [reflexivity |]. split; [reflexivity |].
  apply (eval_of_a_decimal_literal sample_math (str "12") (str "5") 44%N);
    reflexivity.
Defined.

(** ** Rendering, the parts and the sign *)

Lemma zero_cases x : is_zero x = true -> x = zero \/ x = neg_zero.
Proof.
  rewrite is_zero_spec. intros H. rewrite <- (SF2Prim_Prim2SF x).
  destruct (Prim2SF x) as [[|]| | |]; try discriminate; auto.
Qed.

Lemma niceround_zero x : is_zero x = true -> niceround x = str "0".
Proof.
  intros H. destruct (zero_cases x H) as [-> | ->]; vm_compute; reflexivity.
Qed.

Lemma negative_sign x :
  (x <? 0)%float = true ->
  (0 <=? x)%float = false
  /\ match Prim2SF x with
     | S754_infinity true | S754_finite true _ _ => True
     | _ => False
     end.
Proof.
  rewrite ltb_spec, leb_spec. change (Prim2SF 0) with (S754_zero false).
  destruct (Prim2SF x) as [s|s| |s m e]; try destruct s;
    cbn; try discriminate; auto.
Qed.

Lemma NumberToString_negative x :
  (x <? 0)%float = true -> exists rest, NumberToString x = 45%N :: rest.
Proof.
  intros H. destruct (negative_sign x H) as [_ Hs].
  unfold NumberToString.
  destruct (Prim2SF x) as [s|s| |s m e]; try destruct s; try contradiction.
  - eexists; reflexivity.
  - destruct (ratio m e) as [num den].
    destruct (shortest 17 (PrimFloat.abs x) num den (decimal_exponent num den) 1)
      as [[n k] d].
    eexists; reflexivity.
Qed.

Lemma toFixed_digits_negative x f :
  (x <? 0)%float = true -> exists rest, toFixed_digits x f = 45%N :: rest.
Proof.
  intros H. unfold toFixed_digits.
  destruct (negb (is_finite x)); [apply NumberToString_negative, H |].
  destruct (1e21 <=? PrimFloat.abs x)%float;
    [apply NumberToString_negative, H |].
  destruct (magnitude x) as [num den]. rewrite H.
  eexists; reflexivity.
Qed.

(** The rendering of a negative number starts with its sign. *)
Lemma niceround_negative x :
  (x <? 0)%float = true -> exists rest, niceround x = 45%N :: rest.
Proof.
  intros H. unfold niceround.
  destruct (toFixed_digits_negative x 12 H) as [rest ->].
  destruct (includes (str ".") (45%N :: rest)); [| eexists; reflexivity].
  cbn [replace_all].
  change (m_trailing_zeros (45%N :: rest)) with (@None (jstring * nat)).
  eexists; reflexivity.
Qed.

(** The default rendering.  An imaginary part that is a zero is left out;
    beside a real part that is a zero, the rendering is the imaginary
    part alone, or ["0"]; and a negative imaginary part brings its own
    sign, no [+] being written in front of it. *)
Theorem toString_omits_zero_parts (c : t) :
  (is_zero c.(imag) = true -> toString c = niceround c.(real))
  /\ (is_zero c.(real) = true ->
      toString c = str "0" \/ toString c = niceround c.(imag) ++ str "j")
  /\ ((c.(imag) <? 0)%float = true ->
      exists rest,
        niceround c.(imag) = str "-" ++ rest
        /\ (toString c = niceround c.(real)
            \/ toString c = str "-" ++ rest ++ str "j"
            \/ toString c = niceround c.(real) ++ str "-" ++ rest ++ str "j")).
Proof.
  split; [| split].
  - intros H. unfold toString. rewrite (niceround_zero _ H). reflexivity.
  - intros H. unfold toString. rewrite (niceround_zero _ H).
    destruct (negb (eqb (niceround (imag c) ++ str "j") (str "0j"))
              && negb (eqb (niceround (imag c) ++ str "j") (str "-0j")))%bool;
      auto.
  - intros H. destruct (niceround_negative _ H) as [rest Hr].
    destruct (negative_sign _ H) as [Hle _].
    exists rest. split; [exact Hr |].
    unfold toString. rewrite Hle, Hr.
    match goal with
    | |- context [if ?b then _ else _] => destruct b
    end; [| left; reflexivity].
    destruct (negb (eqb (niceround (real c)) (str "0")));
      [right; right; reflexivity | right; left; reflexivity].
Qed.

Lemma dec_nonempty z : dec z <> [].
Proof.
  unfold dec, NilZero.string_of_uint.
  destruct (N.to_uint (Z.to_N z)); discriminate.
Qed.

Lemma app_nonempty (a b : jstring) : a <> [] \/ b <> [] -> a ++ b <> [].
Proof.
  destruct a; simpl; [intros [H | H]; [contradiction | exact H] | discriminate].
Qed.

Lemma layout_nonempty n k ds : ds <> [] -> layout n k ds <> [].
Proof.
  intros H. unfold layout.
  destruct ((-5 <=? n)%Z && (n <=? 21)%Z)%bool.
  - destruct (k <=? n)%Z; [apply app_nonempty; auto |].
    destruct (0 <? n)%Z.
    + apply app_nonempty. right. discriminate.
    + discriminate.
  - destruct ds as [|d [|d' rest]]; [contradiction | discriminate | discriminate].
Qed.

Lemma NumberToString_nonempty x : NumberToString x <> [].
Proof.
  unfold NumberToString.
  destruct (Prim2SF x) as [s|s| |s m e]; try destruct s; try discriminate.
  - destruct (ratio m e) as [num den].
    destruct (shortest 17 (PrimFloat.abs x) num den (decimal_exponent num den) 1)
      as [[n k] d]. discriminate.
  - destruct (ratio m e) as [num den].
    destruct (shortest 17 (PrimFloat.abs x) num den (decimal_exponent num den) 1)
      as [[n k] d]. apply layout_nonempty, dec_nonempty.
Qed.

(** The string that [Number.prototype.toFixed] returns is never empty. *)
Lemma toFixed_digits_nonempty x f : toFixed_digits x f <> [].
Proof.
  unfold toFixed_digits.
  destruct (negb (is_finite x)); [apply NumberToString_nonempty |].
  destruct (1e21 <=? PrimFloat.abs x)%float; [apply NumberToString_nonempty |].
  destruct (magnitude x) as [num den].
  apply app_nonempty. right.
  destruct (f =? 0)%Z; [apply dec_nonempty |].
  unfold with_point. apply app_nonempty. right. discriminate.
Qed.

(** Whenever [toFixed] returns, its result starts with the rendering of
    the real part, which is never empty: the real part is rendered also
    when it is a zero, the test of [toFixed] being on that string. *)
Theorem toFixed_always_renders_the_real_part (c : t)
    (fractionDigits : option number) (s : jstring) :
  toFixed c fractionDigits = Ok s ->
  exists r rest,
    JSNumber.toFixed c.(real) fractionDigits = Some r
    /\ r <> [] /\ s = r ++ rest.
Proof.
  unfold toFixed. intros H.
  destruct (JSNumber.toFixed (real c) fractionDigits) as [r|] eqn:Er;
    [| discriminate H].
  assert (Hr : r <> []).
  { unfold JSNumber.toFixed in Er.
    destruct (ToIntegerOrInfinity fractionDigits) as [f|]; [| discriminate].
    destruct ((f <? 0)%Z || (100 <? f)%Z)%bool; [discriminate |].
    injection Er as <-. apply toFixed_digits_nonempty. }
  cbn [or_range_error bind] in H.
  exists r.
  destruct (truthy (imag c)).
  - destruct (JSNumber.toFixed (imag c) fractionDigits) as [i|];
      [| discriminate H].
    cbn [or_range_error bind] in H.
    destruct r as [|r0 r]; [contradiction |].
    assert (Hi : nonempty (i ++ str "j") = true) by (destruct i; reflexivity).
    rewrite Hi in H. cbn [nonempty] in H.
    destruct (0 <=? imag c)%float; injection H as <-; eexists;
      (split; [reflexivity | split; [exact Hr | reflexivity]]).
  - cbn [bind nonempty] in H. injection H as <-.
    exists []. rewrite app_nil_r. auto.
Qed.

(** [new Complex(0, -2).toFixed(1)]. *)
Lemma toFixed_always_renders_the_real_part_witness :
  toFixed (mk 0 (-2)) (Some 1%float) = Ok (str "0.0-2.0j")
  /\ exists r rest,
       JSNumber.toFixed 0 (Some 1%float) = Some r
       /\ r <> [] /\ str "0.0-2.0j" = r ++ rest.
Proof.
  split; [vm_compute; reflexivity |].
  apply (toFixed_always_renders_the_real_part (mk 0 (-2)) (Some 1%float)
           (str "0.0-2.0j")).
  vm_compute. reflexivity.
Defined.

(** Called without an argument, [toFixed], [toExponential] and
    [toPrecision] return for every value; [toFixed(101)] throws the
    RangeError of the runtime for every value, the real part being
    rendered first. *)
Theorem rendering_without_argument_returns (M : MathLib) (c : t) :
  (exists s, toFixed c None = Ok s)
  /\ (exists s, toExponential M c None = Ok s)
  /\ (exists s, toPrecision c None = Ok s)
  /\ toFixed c (Some 101%float) = Throw RangeError.
Proof.
  split; [| split; [| split]].
  - unfold toFixed.
    change (JSNumber.toFixed (real c) None)
      with (Some (toFixed_digits (real c) 0)).
    change (JSNumber.toFixed (imag c) None)
      with (Some (toFixed_digits (imag c) 0)).
    destruct (truthy (imag c)); eexists; reflexivity.
  - apply toExponential_None.
  - unfold toPrecision. cbn [JSNumber.toPrecision or_range_error bind].
    destruct (truthy (imag c)); [destruct (truthy (real c)) |];
      eexists; reflexivity.
  - unfold toFixed.
    change (JSNumber.toFixed (real c) (Some 101%float)) with (@None jstring).
    reflexivity.
Qed.

(** ** The errors of the evaluator *)

Lemma fails_bind {A B : Type} (m : result A) (k : A -> result B) :
  fails_as_eval m -> (forall a, m = Ok a -> fails_as_eval (k a)) ->
  fails_as_eval (bind m k).
Proof.
  intros Hm Hk. destruct m as [a| e |]; simpl.
  - apply Hk. reflexivity.
  - intros e' H. injection H as <-. apply Hm. reflexivity.
  - intros e'; discriminate.
Qed.

Lemma fails_Ok {A : Type} (a : A) : fails_as_eval (Ok a).
Proof. intros e; discriminate. Qed.

Lemma fails_OutOfFuel {A : Type} : fails_as_eval (@OutOfFuel A).
Proof. intros e; discriminate. Qed.

Lemma fails_Throw {A : Type} e :
  is_eval_error e = true -> fails_as_eval (@Throw A e).
Proof. intros H e' E. injection E as <-. exact H. Qed.

(** One step into a term built from [bind], tests and calls. *)
Ltac fe_step :=
  first
    [ apply fails_Ok
    | apply fails_OutOfFuel
    | apply fails_Throw; reflexivity
    | match goal with H : forall _, fails_as_eval _ |- _ => apply H end
    | apply fails_bind; [| intros ? ? ]
    | match goal with
      | |- fails_as_eval (if ?b then _ else _) => destruct b eqn:?
      | |- fails_as_eval (match ?x with _ => _ end) => destruct x eqn:?
      end ].

Section EvalErrors.

Variable M : MathLib.

Section Operations.

Variable ev : value -> result t.
Hypothesis Hev : forall v, fails_as_eval (ev v).

Lemma fails_assign_real real : fails_as_eval (assign_real ev real).
Proof. destruct real; simpl; repeat fe_step. Qed.

Lemma fails_check_nan real imag this :
  fails_as_eval (check_nan real imag this).
Proof. unfold check_nan. repeat fe_step. Qed.

Lemma fails_new1 real : fails_as_eval (new1 ev real).
Proof.
  unfold new1.
  repeat first [apply fails_assign_real | apply fails_check_nan | fe_step].
Qed.

Lemma fails_new real imag : fails_as_eval (new ev real imag).
Proof.
  unfold new.
  repeat first [apply fails_assign_real | apply fails_check_nan
               | apply fails_new1 | fe_step].
Qed.

Lemma fails_to_complex n : fails_as_eval (to_complex ev n).
Proof. destruct n; simpl; repeat first [apply fails_new | fe_step]. Qed.

Lemma fails_add_loop numbers :
  forall newThis, fails_as_eval (add_loop ev newThis numbers).
Proof.
  induction numbers as [|n rest IH]; intros; simpl;
    repeat first [apply fails_to_complex | apply IH | fe_step].
Qed.

Lemma fails_add numbers : fails_as_eval (add ev numbers).
Proof.
  unfold add. repeat first [apply fails_new | apply fails_add_loop | fe_step].
Qed.

Lemma fails_sub_loop Rvalues :
  forall newThis, fails_as_eval (sub_loop ev newThis Rvalues).
Proof.
  induction Rvalues as [|n rest IH]; intros; simpl;
    repeat first [apply fails_to_complex | apply IH | fe_step].
Qed.

Lemma fails_sub Lvalue Rvalues : fails_as_eval (sub ev Lvalue Rvalues).
Proof.
  unfold sub. repeat first [apply fails_new | apply fails_sub_loop | fe_step].
Qed.

Lemma fails_mul_loop numbers :
  forall real imag, fails_as_eval (mul_loop ev real imag numbers).
Proof.
  induction numbers as [|n rest IH]; intros; simpl;
    repeat first [apply fails_to_complex | apply IH | fe_step].
Qed.

Lemma fails_mul numbers : fails_as_eval (mul ev numbers).
Proof.
  unfold mul. repeat first [apply fails_new | apply fails_mul_loop | fe_step].
Qed.

(** The message of [div] renders the numerator with [toExponential()],
    which has no argument to reject. *)
Lemma fails_div_step a b cn : fails_as_eval (div_step M ev a b cn).
Proof.
  unfold div_step.
  repeat first [apply fails_new | fe_step].
  match goal with
  | |- fails_as_eval (toExponential M ?c None) =>
      destruct (toExponential_None M c) as [e ->]; apply fails_Ok
  end.
Qed.

Lemma fails_div_loop Rvalues :
  forall real imag, fails_as_eval (div_loop M ev real imag Rvalues).
Proof.
  induction Rvalues as [|n rest IH]; intros; simpl;
    repeat first [apply fails_to_complex | apply fails_div_step | apply IH
                 | fe_step].
Qed.

Lemma fails_div Lvalue Rvalues : fails_as_eval (div M ev Lvalue Rvalues).
Proof.
  unfold div.
  repeat first [apply fails_to_complex | apply fails_div_loop
               | apply fails_new | fe_step].
Qed.

Lemma fails_exp terms : fails_as_eval (exp M ev terms).
Proof.
  unfold exp. repeat first [apply fails_mul | apply fails_new | fe_step].
Qed.

Lemma fails_log terms : fails_as_eval (log M ev terms).
Proof.
  unfold log. repeat first [apply fails_mul | apply fails_new | fe_step].
Qed.

Lemma fails_pow root exponent : fails_as_eval (pow M ev root exponent).
Proof.
  unfold pow.
  repeat first [apply fails_log | apply fails_mul | apply fails_exp | fe_step].
Qed.

End Operations.

(** The arithmetic at a leaf of a level, [Hv] being the fact for [eval]. *)
Ltac fe_leaf Hv :=
  first
    [ apply fails_new; exact Hv | apply fails_mul; exact Hv
    | apply fails_add; exact Hv | apply fails_sub; exact Hv
    | apply fails_div; exact Hv | apply fails_exp; exact Hv
    | apply fails_log; exact Hv | apply fails_pow; exact Hv ].

Lemma levels_fail_as_eval_all fuel : levels_fail_as_eval M fuel.
Proof.
  induction fuel as [|fuel (He & Hx & Hm & Ha & Hb & Hv)].
  - repeat split; intros; apply fails_OutOfFuel.
  - repeat split.
    + intros parts. cbn [eval__read_expression].
      repeat first [fe_leaf Hv | fe_step].
    + intros parts. cbn [eval__read_exponentiation].
      repeat first [fe_leaf Hv | fe_step].
    + intros parts. cbn [eval__read_multiplication].
      repeat first [fe_leaf Hv | fe_step].
    + intros parts. cbn [eval__read_addition].
      repeat first [fe_leaf Hv | fe_step].
    + intros parts. cbn [eval__read_bracket_contents].
      repeat first [fe_leaf Hv | fe_step].
      match goal with
      | H : eval__read_addition _ _ _ = Ok (_, ?r), E : at_closing ?r = false
        |- _ => apply (levels_stop_all M fuel) in H; congruence
      end.
    + intros num. cbn [eval].
      repeat first [fe_leaf Hv | fe_step].
Qed.

Lemma eval_fails_as_eval fuel v : fails_as_eval (eval M fuel v).
Proof. apply levels_fail_as_eval_all. Qed.

End EvalErrors.


(** ** The command line *)

(** What the handler writes for a chunk is the default rendering of the
    value of the chunk and a line feed; whitespace around the expression,
    the line terminator that ends the chunk among it, changes nothing;
    and an error of the evaluator leaves the handler as it is. *)
Theorem cli_prints_the_rendering (M : MathLib) (fuel : nat)
    (pre s post : jstring) :
  all_white pre = true -> all_white post = true ->
  Cli.on_data M fuel (pre ++ s ++ post) = Cli.on_data M fuel s
  /\ (forall c, eval M fuel (VString s) = Ok c ->
                Cli.on_data M fuel s = Ok (toString c ++ Cli.newline))
  /\ (forall e, eval M fuel (VString s) = Throw e ->
                Cli.on_data M fuel s = Throw e).
Proof.
  intros Hpre Hpost. unfold Cli.on_data. split; [| split].
  - rewrite (eval_tokenize M fuel (pre ++ s ++ post) s); [reflexivity |].
    apply tokenize_trim, trim_surrounded; assumption.
  - intros c ->. reflexivity.
  - intros e ->. reflexivity.
Qed.

(** The line ["3+4j"]. *)
Lemma cli_prints_the_rendering_witness :
  all_white [] = true /\ all_white Cli.newline = true
  /\ Cli.on_data sample_math 16 ([] ++ str "3+4j" ++ Cli.newline)
     = Ok (str "3+4j" ++ Cli.newline).
Proof.
  split; [reflexivity |]. split; [reflexivity |].
  rewrite (proj1 (cli_prints_the_rendering sample_math 16 [] (str "3+4j")
                    Cli.newline eq_refl eq_refl)).
  vm_compute. reflexivity.
Defined.

(** ** A chain of subtractions *)

Lemma rejected_part_first M fuel p parts :
  is_rejected_part p = true ->
  eval__read_addition M (4 + fuel) (p :: parts)
  = Throw (InvalidExpression
             (str "Invalid expression: " ++ join (str " ") (p :: parts))).
Proof.
  unfold is_rejected_part. intros H.
  apply andb_true_iff in H. destruct H as [H Hplus].
  apply andb_true_iff in H. destruct H as [Hnan Hw].
  apply negb_true_iff in Hplus, Hw.
  assert (Hsp : eqb p (str " ") = false).
  { destruct (eqb p (str " ")) eqn:E; [| reflexivity].
    apply eqb_eq in E. subst p. vm_compute in Hnan. discriminate. }
  destruct (is_atom_word_false p Hw) as (_ & _ & _ & _ & _ & Hminus).
  change (4 + fuel)%nat with (S (S (S (S fuel)))).
  cbn [eval__read_addition skip_spaces]. rewrite Hsp, Hplus, Hminus.
  cbn [eval__read_multiplication eval__read_exponentiation].
  rewrite (atom_rejects M fuel p parts Hnan Hw). reflexivity.
Qed.

(** In [a - b] followed by another sign, the addition level puts the
    difference back as one part, its default rendering, and reads on from
    it.  When that rendering is no number (it has an imaginary part, or is
    ["NaN"]), the atom level rejects it: the call throws InvalidExpression
    with the rendering and the parts left.  So [2j-3-4] is rejected, where
    [1-2-3] is [-4]. *)
Theorem difference_put_back_as_one_part (M : MathLib) (fuel : nat)
    (p0 q : jstring) (ps rest rest2 : tokens) (left_ right_ d : t) :
  starts_a_term p0 = true ->
  eval__read_multiplication M (4 + fuel) (p0 :: ps)
  = Ok (left_, str "-" :: rest) ->
  eval__read_multiplication M (4 + fuel) rest = Ok (right_, q :: rest2) ->
  (eqb q (str "+") || eqb q (str "-"))%bool = true ->
  sub (eval M (4 + fuel)) (VComplex left_) [VComplex right_] = Ok d ->
  is_rejected_part (toString d) = true ->
  eval__read_addition M (5 + fuel) (p0 :: ps)
  = Throw (InvalidExpression
             (str "Invalid expression: "
                ++ join (str " ") (toString d :: q :: rest2))).
Proof.
  unfold starts_a_term. intros Hp Hl Hr Hq Hd Hrej.
  apply andb_true_iff in Hp. destruct Hp as [Hp Hminus].
  apply andb_true_iff in Hp. destruct Hp as [Hsp Hplus].
  apply negb_true_iff in Hsp, Hplus, Hminus.
  change (5 + fuel)%nat with (S (4 + fuel)).
  cbn [eval__read_addition skip_spaces]. rewrite Hsp, Hplus, Hminus.
  rewrite Hl. cbn [bind skip_spaces].
  change (eqb (str "-") (str " ")) with false. cbv iota.
  change (eqb (str "-") (str "+")) with false.
  change (eqb (str "-") (str "-")) with true. cbv iota.
  rewrite Hr. cbn [bind]. rewrite Hq, Hd. cbn [bind].
  apply rejected_part_first, Hrej.
Qed.

(** The parts of ["2j-3-4"]. *)
Lemma difference_put_back_as_one_part_witness :
  starts_a_term (str "2") = true
  /\ eval__read_multiplication sample_math 4
       [str "2"; str "j"; str "-"; str "3"; str "-"; str "4"]
     = Ok (mk 0 2, [str "-"; str "3"; str "-"; str "4"])
  /\ eval__read_multiplication sample_math 4 [str "3"; str "-"; str "4"]
     = Ok (mk 3 0, [str "-"; str "4"])
  /\ (eqb (str "-") (str "+") || eqb (str "-") (str "-"))%bool = true
  /\ sub (eval sample_math 4) (VComplex (mk 0 2)) [VComplex (mk 3 0)]
     = Ok (mk (-3) 2)
  /\ is_rejected_part (toString (mk (-3) 2)) = true
  /\ eval__read_addition sample_math 5
       [str "2"; str "j"; str "-"; str "3"; str "-"; str "4"]
     = Throw (InvalidExpression (str "Invalid expression: -3+2j - 4")).
Proof.
  split; [reflexivity |]. split; [vm_compute; reflexivity |].
  split; [vm_compute; reflexivity |]. split; [reflexivity |].
  split; [vm_compute; reflexivity |]. split; [vm_compute; reflexivity |].
  apply (difference_put_back_as_one_part sample_math 0 (str "2") (str "-")
           [str "j"; str "-"; str "3"; str "-"; str "4"]
           [str "3"; str "-"; str "4"] [str "4"] (mk 0 2) (mk 3 0) (mk (-3) 2));
    vm_compute; reflexivity.
Defined.

(** ** [exp] and [log] at the edges *)

(** On a platform with the usual values at these arguments ([cos 0],
    [sin 0], [e ** 1], [1 ** 0.5], [log 1], [atan2(0, 1)], [0 ** 0.5],
    [log 0], [atan2(0, 0)]): [Complex.exp()] is [e], [Complex.log()] is
    [0], and [Complex.log(0)] returns [-Infinity + 0j] without an error,
    the angle of zero being computed with the divisor [abs || 1]; so
    [Complex.pow(0, 0)] multiplies [0] by [-Infinity] and throws the error
    of the constructor. *)
Theorem exp_and_log_at_the_edges (M : MathLib) (ev : value -> result t) :
  edge_values M ->
  exp M ev [] = Ok (mk Math_E 0)
  /\ log M ev [] = Ok (mk 0 0)
  /\ angle M (mk 0 0) = Math_atan2 M 0 0
  /\ log M ev [VNumber 0] = Ok (mk neg_infinity 0)
  /\ pow M ev (VNumber 0) (VNumber 0) = Throw (cannot_construct nan nan).
Proof.
  intros (Hc & Hs & He & Hp1 & Hl1 & Ha1 & Hp0 & Hl0 & Ha0).
  assert (Habs1 : abs M (mk 1 0) = 1%float) by (unfold abs; exact Hp1).
  assert (Habs0 : abs M (mk 0 0) = 0%float) by (unfold abs; exact Hp0).
  assert (Hang0 : angle M (mk 0 0) = Math_atan2 M 0 0)
    by (unfold angle; rewrite Habs0; reflexivity).
  assert (Hlog0 : log M ev [VNumber 0] = Ok (mk neg_infinity 0)).
  { unfold log. change (mul ev [VNumber 0]) with (Ok (mk 0 0)). cbn [bind].
    rewrite Hang0, Habs0, Hl0, Ha0. reflexivity. }
  split; [| split; [| split; [| split]]].
  - unfold exp. change (mul ev []) with (Ok (mk 1 0)).
    cbn [bind Complex.real Complex.imag]. rewrite Hc, Hs, He.
    vm_compute. reflexivity.
  - unfold log. change (mul ev []) with (Ok (mk 1 0)). cbn [bind].
    unfold angle. rewrite Habs1, Hl1.
    change (Math_atan2 M (Complex.imag (mk 1 0) / or_else 1 1)
              (Complex.real (mk 1 0) / or_else 1 1))
      with (Math_atan2 M 0 1).
    rewrite Ha1. reflexivity.
  - exact Hang0.
  - exact Hlog0.
  - unfold pow. rewrite Hlog0. cbn [bind]. vm_compute. reflexivity.
Qed.

Lemma exp_and_log_at_the_edges_witness :
  edge_values edge_math
  /\ exp edge_math (fun _ => OutOfFuel) [] = Ok (mk Math_E 0)
  /\ log edge_math (fun _ => OutOfFuel) [] = Ok (mk 0 0)
  /\ angle edge_math (mk 0 0) = Math_atan2 edge_math 0 0
  /\ log edge_math (fun _ => OutOfFuel) [VNumber 0] = Ok (mk neg_infinity 0)
  /\ pow edge_math (fun _ => OutOfFuel) (VNumber 0) (VNumber 0)
     = Throw (cannot_construct nan nan).
Proof.
  assert (H : edge_values edge_math) by (repeat split; reflexivity).
  split; [exact H |].
  apply (exp_and_log_at_the_edges edge_math (fun _ => OutOfFuel) H).
Defined.
